(** * Four-channel load monitor and relay controller (src/main.cpp)

    A shallow embedding of the firmware's domain logic: the per-second
    metering and relay policy of [loop], the command handler [handleWS],
    the notification log of [pushNotification] and the settings document
    of [saveSettingsToFS] / [loadSettingsFromFS].

    Conventions of the embedding.
    - [int] and [unsigned long] are 32 bits wide on the target; they are
      kept as [Z] with the wrap-around written out ([C.to_int],
      [C.to_ulong]).
    - [float] is IEEE binary32 and [double] IEEE binary64, both carried by
      [spec_float] with the operations of the matching precision.
    - The global variables of the sketch are the fields of [State]; every
      function takes the state and returns the new one.  What the device
      sends out (GPIO levels, WebSocket frames, settings writes) is
      appended to the [emitted] field, oldest first.
    - Clock and sensor readings are inputs of the functions that read them.
      One call of a handler sees one clock value.
    - Serial diagnostics, WiFi bring-up and the static file server are left
      out.  JSON documents are assumed to fit their static pools. *)

From Stdlib Require Import ZArith QArith Floats.SpecFloat.
From stdpp Require Import base list strings pretty.

Open Scope Z_scope.

(** ** Machine integers *)

Module C.

Definition INT_MIN : Z := - 2 ^ 31.
Definition INT_MAX : Z := 2 ^ 31 - 1.
Definition ULONG_MAX : Z := 2 ^ 32 - 1.

(** Conversion to [unsigned long]: reduction modulo 2^32. *)
Definition to_ulong (z : Z) : Z := z mod 2 ^ 32.

(** Two's complement reduction to [int]. *)
Definition to_int (z : Z) : Z := (z + 2 ^ 31) mod 2 ^ 32 - 2 ^ 31.

Definition fits_int (z : Z) : bool := (INT_MIN <=? z) && (z <=? INT_MAX).
Definition fits_ulong (z : Z) : bool := (0 <=? z) && (z <=? ULONG_MAX).

End C.

(** ** IEEE arithmetic *)

Module IEEE.

(** [float] operations: precision 24, emax 128. *)
Definition f32_of_Z (z : Z) : spec_float := binary_normalize 24 128 z 0 false.
Definition f32_mul : spec_float -> spec_float -> spec_float := SFmul 24 128.
Definition f32_div : spec_float -> spec_float -> spec_float := SFdiv 24 128.

(** [double] operations: precision 53, emax 1024. *)
Definition f64_of_Z (z : Z) : spec_float := binary_normalize 53 1024 z 0 false.
Definition f64_add : spec_float -> spec_float -> spec_float := SFadd 53 1024.
Definition f64_mul : spec_float -> spec_float -> spec_float := SFmul 53 1024.
Definition f64_div : spec_float -> spec_float -> spec_float := SFdiv 53 1024.

(** Promotion of a [float] to [double]: exact, the mantissa is realigned. *)
Definition to_double (x : spec_float) : spec_float :=
  match x with
  | S754_finite s m e => binary_round 53 1024 s m e
  | _ => x
  end.

Definition ltb : spec_float -> spec_float -> bool := SFltb.


End IEEE.

(** ** JSON values as ArduinoJson presents them *)

#[warnings="-register-all"]
Inductive JValue :=
| JNull
| JBool (b : bool)
| JInt (z : Z)
| JFloat (f : spec_float)
| JStr (s : string)
| JArr (l : list JValue)
| JObj (members : list (string * JValue)).

Module Json.

Fixpoint assoc (key : string) (members : list (string * JValue)) : option JValue :=
  match members with
  | [] => None
  | (k, v) :: rest => if String.eqb k key then Some v else assoc key rest
  end.

(** [doc[key]]: the member, or the null variant when the document is not
    an object or has no such member. *)
Definition get (doc : JValue) (key : string) : JValue :=
  match doc with
  | JObj members => default JNull (assoc key members)
  | _ => JNull
  end.

(** [const char* s = v]: the string, or a null pointer. *)
Definition as_cstr (v : JValue) : option string :=
  match v with
  | JStr s => Some s
  | _ => None
  end.

(** [v | d] at type [int]: the value when [v] holds an integer that fits
    an [int], the default otherwise. *)
Definition or_int (v : JValue) (d : Z) : Z :=
  match v with
  | JInt z => if C.fits_int z then z else d
  | _ => d
  end.

(** [v | d] at type [bool]. *)
Definition or_bool (v : JValue) (d : bool) : bool :=
  match v with
  | JBool b => b
  | _ => d
  end.

(** [v | d] at type [double]: any number qualifies. *)
Definition or_double (v : JValue) (d : spec_float) : spec_float :=
  match v with
  | JInt z => IEEE.f64_of_Z z
  | JFloat f => f
  | _ => d
  end.

End Json.

(** ** Data *)

(** [struct Load], with its default member initialisers. *)
Record Load := mkLoad {
  V : spec_float;
  I : spec_float;
  P : spec_float;
  Wh : spec_float;
  cost : spec_float;
  relay : bool;
  onSecondsToday : Z;
  usageLimitSeconds : Z;
  timerMinutes : Z;
  timerEndEpoch : Z
}.

Definition Load_default : Load :=
  {| V := S754_zero false; I := S754_zero false; P := S754_zero false;
     Wh := S754_zero false; cost := S754_zero false;
     relay := false;
     onSecondsToday := 0;
     usageLimitSeconds := 12 * 3600;
     timerMinutes := 0;
     timerEndEpoch := 0 |}.

#[global] Instance Load_inhabited : Inhabited Load := populate Load_default.

(** One entry of [/notifs.json]. *)
Record Notif := mkNotif { ts : Z; text : string }.

(** [/settings.json] as [loadSettingsFromFS] reads it: every key may be
    absent; a present key carries the value its [as<T>()] conversion
    yields. *)
Record LoadSettings := mkLoadSettings {
  limitSec : option Z;
  timerMin : option Z
}.

Record SettingsDoc := mkSettingsDoc {
  doc_unitPrice : option spec_float;
  doc_loads : option (list LoadSettings)
}.

Inductive SettingsFile :=
| Unparsable
| Parsed (doc : SettingsDoc).

(** The SPIFFS partition, as far as the controller uses it.  A partition
    that failed to mount has no files and refuses every open. *)
Record FS := mkFS {
  mounted : bool;
  settings_file : option SettingsFile;
  notifs_file : option (list Notif)
}.

Inductive WsMessage :=
| MsgNotification (txt : string)
| MsgState (price : spec_float) (loads : list Load).

Inductive Effect :=
| DigitalWrite (pin : Z) (level : bool)
| BroadcastTXT (m : WsMessage)
| SettingsWrite (doc : SettingsDoc).

(** The globals of the sketch. *)
Record State := mkState {
  L : list Load;
  unitPrice : spec_float;
  lastSec : Z;
  inaPresent : list bool;
  fs : FS;
  emitted : list Effect
}.

Definition RELAY_PINS : list Z := [16; 17; 18; 19].
Definition RELAY_ON : bool := true.
Definition RELAY_OFF : bool := false.

(** ** Field updates *)

Definition set_L (f : list Load -> list Load) (st : State) : State :=
  mkState (f (L st)) (unitPrice st) (lastSec st) (inaPresent st) (fs st) (emitted st).
Definition set_unitPrice (p : spec_float) (st : State) : State :=
  mkState (L st) p (lastSec st) (inaPresent st) (fs st) (emitted st).
Definition set_lastSec (t : Z) (st : State) : State :=
  mkState (L st) (unitPrice st) t (inaPresent st) (fs st) (emitted st).
Definition set_inaPresent (f : list bool -> list bool) (st : State) : State :=
  mkState (L st) (unitPrice st) (lastSec st) (f (inaPresent st)) (fs st) (emitted st).
Definition set_fs (f : FS -> FS) (st : State) : State :=
  mkState (L st) (unitPrice st) (lastSec st) (inaPresent st) (f (fs st)) (emitted st).
Definition emit (e : Effect) (st : State) : State :=
  mkState (L st) (unitPrice st) (lastSec st) (inaPresent st) (fs st) (emitted st ++ [e]).

(** [L[i].field = ...] *)
Definition upd (i : nat) (f : Load -> Load) (st : State) : State :=
  set_L (alter f i) st.

Definition with_meter (v c p wh k : spec_float) (l : Load) : Load :=
  mkLoad v c p wh k (relay l) (onSecondsToday l) (usageLimitSeconds l)
         (timerMinutes l) (timerEndEpoch l).
Definition with_VIP (v c p : spec_float) (l : Load) : Load :=
  with_meter v c p (Wh l) (cost l) l.
Definition with_relay (b : bool) (l : Load) : Load :=
  mkLoad (V l) (I l) (P l) (Wh l) (cost l) b (onSecondsToday l)
         (usageLimitSeconds l) (timerMinutes l) (timerEndEpoch l).
Definition with_onSecondsToday (n : Z) (l : Load) : Load :=
  mkLoad (V l) (I l) (P l) (Wh l) (cost l) (relay l) n
         (usageLimitSeconds l) (timerMinutes l) (timerEndEpoch l).
Definition with_usageLimitSeconds (n : Z) (l : Load) : Load :=
  mkLoad (V l) (I l) (P l) (Wh l) (cost l) (relay l) (onSecondsToday l)
         n (timerMinutes l) (timerEndEpoch l).
Definition with_timerMinutes (n : Z) (l : Load) : Load :=
  mkLoad (V l) (I l) (P l) (Wh l) (cost l) (relay l) (onSecondsToday l)
         (usageLimitSeconds l) n (timerEndEpoch l).
Definition with_timerEndEpoch (n : Z) (l : Load) : Load :=
  mkLoad (V l) (I l) (P l) (Wh l) (cost l) (relay l) (onSecondsToday l)
         (usageLimitSeconds l) (timerMinutes l) n.

(** ** SPIFFS *)

Definition present_file {A} (f : option A) : bool :=
  match f with
  | Some _ => true
  | None => false
  end.

Definition fileExists_settings (st : State) : bool :=
  mounted (fs st) && present_file (settings_file (fs st)).
Definition fileExists_notifs (st : State) : bool :=
  mounted (fs st) && present_file (notifs_file (fs st)).

Definition write_settings (d : SettingsDoc) (f : FS) : FS :=
  mkFS (mounted f) (Some (Parsed d)) (notifs_file f).
Definition write_notifs (l : list Notif) (f : FS) : FS :=
  mkFS (mounted f) (settings_file f) (Some l).
Definition remove_notifs (f : FS) : FS :=
  mkFS (mounted f) (settings_file f) None.

(** ** Settings *)

Definition settings_of (st : State) : SettingsDoc :=
  {| doc_unitPrice := Some (unitPrice st);
     doc_loads :=
       Some (map (fun l => {| limitSec := Some (usageLimitSeconds l);
                              timerMin := Some (timerMinutes l) |})
                 (take 4 (L st))) |}.

Definition saveSettingsToFS (st : State) : State :=
  if mounted (fs st)
  then emit (SettingsWrite (settings_of st)) (set_fs (write_settings (settings_of st)) st)
  else st.

Definition load_entry (e : LoadSettings) (l : Load) : Load :=
  let l1 := match limitSec e with
            | Some s => with_usageLimitSeconds s l
            | None => l
            end in
  match timerMin e with
  | Some m => with_timerMinutes m l1
  | None => l1
  end.

(** The loop [for(i=0; i<4 && i<arr.size(); i++)], from index [i] on. *)
Fixpoint load_entries (i : nat) (arr : list LoadSettings) (st : State) : State :=
  match arr with
  | [] => st
  | e :: rest =>
      if (i <? 4)%nat then load_entries (S i) rest (upd i (load_entry e) st) else st
  end.

Definition loadSettingsFromFS (st : State) : State :=
  if negb (fileExists_settings st) then saveSettingsToFS st
  else
    match settings_file (fs st) with
    | Some (Parsed doc) =>
        let st1 := match doc_unitPrice doc with
                   | Some p => set_unitPrice p st
                   | None => st
                   end in
        match doc_loads doc with
        | Some arr => load_entries 0 arr st1
        | None => st1
        end
    | _ => st
    end.

(** ** Notifications *)

Definition pushNotification (now : Z) (s : string) (st : State) : State :=
  let doc := if fileExists_notifs st
             then default [] (notifs_file (fs st))
             else [] in
  let arr := doc ++ [{| ts := now; text := s |}] in
  let st1 := if mounted (fs st) then set_fs (write_notifs arr) st else st in
  emit (BroadcastTXT (MsgNotification s)) st1.

Definition digitalWrite (pin : Z) (level : bool) (st : State) : State :=
  emit (DigitalWrite pin level) st.

(** ** WebSocket commands *)

Inductive WStype_t :=
| WStype_ERROR
| WStype_DISCONNECTED
| WStype_CONNECTED
| WStype_TEXT
| WStype_BIN
| WStype_FRAGMENT_TEXT_START
| WStype_FRAGMENT_BIN_START
| WStype_FRAGMENT
| WStype_FRAGMENT_FIN
| WStype_PING
| WStype_PONG.

(** [id>=1 && id<=4] *)
Definition valid_id (id : Z) : bool := (1 <=? id) && (id <=? 4).

(** The array index [id-1]. *)
Definition chan (id : Z) : nat := Z.to_nat (id - 1).

(** [time(nullptr) + minutes*60], stored into an [unsigned long].  The
    product is an [int]; where it overflows C++ leaves it undefined and the
    model wraps it.  The statements below that rely on the sum assume it
    stays in range. *)
Definition deadline (now minutes : Z) : Z :=
  C.to_ulong (now + C.to_int (minutes * 60)).

Definition cmd_relay (now : Z) (doc : JValue) (st : State) : State :=
  let id := Json.or_int (Json.get doc "id") 1 in
  let state := Json.or_bool (Json.get doc "state") false in
  if valid_id id then
    let i := chan id in
    let st1 := digitalWrite (RELAY_PINS !!! i) (if state then RELAY_ON else RELAY_OFF) st in
    let st2 := upd i (with_relay state) st1 in
    let m := timerMinutes (L st2 !!! i) in
    let st3 := if state && (0 <? m)
               then upd i (with_timerEndEpoch (deadline now m)) st2
               else upd i (with_timerEndEpoch 0) st2 in
    pushNotification now
      ("Relay " +:+ pretty id +:+ (if state then " ON" else " OFF")) st3
  else st.

Definition cmd_setTimer (now : Z) (doc : JValue) (st : State) : State :=
  let id := Json.or_int (Json.get doc "id") 1 in
  let m := Json.or_int (Json.get doc "minutes") 0 in
  if valid_id id then
    let i := chan id in
    let st1 := upd i (with_timerMinutes m) st in
    let st2 := if relay (L st1 !!! i) && (0 <? m)
               then upd i (with_timerEndEpoch (deadline now m)) st1
               else upd i (with_timerEndEpoch 0) st1 in
    saveSettingsToFS st2
  else st.

Definition cmd_setLimit (doc : JValue) (st : State) : State :=
  let id := Json.or_int (Json.get doc "id") 1 in
  let s := C.to_ulong (Json.or_int (Json.get doc "seconds") 0) in
  if valid_id id && (0 <? s)
  then saveSettingsToFS (upd (chan id) (with_usageLimitSeconds s) st)
  else st.

Definition cmd_setPrice (doc : JValue) (st : State) : State :=
  saveSettingsToFS
    (set_unitPrice (Json.or_double (Json.get doc "price") (IEEE.f64_of_Z 8)) st).

Definition cmd_clearNotifs (now : Z) (st : State) : State :=
  let st1 := if mounted (fs st) then set_fs remove_notifs st else st in
  pushNotification now "Notifs cleared" st1.

(** [handleWS]: [payload] is what [deserializeJson] makes of the frame,
    [None] when it reports an error. *)
Definition handleWS (now : Z) (type : WStype_t) (payload : option JValue)
    (st : State) : State :=
  match type with
  | WStype_TEXT =>
      match payload with
      | None => st
      | Some doc =>
          match Json.as_cstr (Json.get doc "cmd") with
          | None => st
          | Some cmd =>
              if String.eqb cmd "relay" then cmd_relay now doc st
              else if String.eqb cmd "setTimer" then cmd_setTimer now doc st
              else if String.eqb cmd "setLimit" then cmd_setLimit doc st
              else if String.eqb cmd "setPrice" then cmd_setPrice doc st
              else if String.eqb cmd "clearNotifs" then cmd_clearNotifs now st
              else st
          end
      end
  | _ => st
  end.

(** ** Broadcast *)

Definition broadcastState (st : State) : State :=
  emit (BroadcastTXT (MsgState (unitPrice st) (take 4 (L st)))) st.

(** ** The once-per-second pass of [loop] *)

(** What one INA219 returns to [getBusVoltage_V] and [getCurrent_mA]. *)
Record Reading := mkReading {
  busVoltage_V : spec_float;
  current_mA : spec_float
}.

Record LoopEnv := mkLoopEnv {
  millis : Z;
  tnow : Z;
  sensor : nat -> Reading
}.

(** Lines 279-282: the clamped current and the power of a reading. *)
Definition current_A (r : Reading) : spec_float :=
  let c := IEEE.f32_div (current_mA r) (IEEE.f32_of_Z 1000) in
  if IEEE.ltb c (S754_zero false) then S754_zero false else c.

Definition power_W (r : Reading) : spec_float :=
  IEEE.f32_mul (busVoltage_V r) (current_A r).

(** [Wh += p/3600.0] *)
Definition accumulate (wh p : spec_float) : spec_float :=
  IEEE.f64_add wh (IEEE.f64_div (IEEE.to_double p) (IEEE.f64_of_Z 3600)).

(** [(Wh/1000.0)*unitPrice] *)
Definition cost_of (wh price : spec_float) : spec_float :=
  IEEE.f64_mul (IEEE.f64_div wh (IEEE.f64_of_Z 1000)) price.

Definition measure (r : Reading) (price : spec_float) (l : Load) : Load :=
  let wh := accumulate (Wh l) (power_W r) in
  with_meter (busVoltage_V r) (current_A r) (power_W r) wh (cost_of wh price) l.

(** Lines 278-290. *)
Definition meter_step (env : LoopEnv) (i : nat) (st : State) : State :=
  if (inaPresent st !!! i : bool)
  then upd i (measure (sensor env i) (unitPrice st)) st
  else upd i (with_VIP (S754_zero false) (S754_zero false) (S754_zero false)) st.

(** [usageLimitSeconds>0 && onSecondsToday>=usageLimitSeconds] *)
Definition limit_trips (l : Load) : bool :=
  (0 <? usageLimitSeconds l) && (usageLimitSeconds l <=? onSecondsToday l).

(** [timerEndEpoch>0 && tnow>=timerEndEpoch]; the clock value is a
    non-negative [time_t], so the comparison is the one on integers. *)
Definition timer_due (now : Z) (l : Load) : bool :=
  (0 <? timerEndEpoch l) && (timerEndEpoch l <=? now).

Definition limit_text (i : nat) : string :=
  "Relay " +:+ pretty (Z.of_nat i + 1) +:+ " auto OFF by limit".
Definition timer_text (i : nat) : string :=
  "Relay " +:+ pretty (Z.of_nat i + 1) +:+ " auto OFF by timer".

Definition tick_seconds (l : Load) : Load :=
  with_onSecondsToday (C.to_ulong (onSecondsToday l + 1)) l.

(** Lines 292-299. *)
Definition limit_step (env : LoopEnv) (i : nat) (st : State) : State :=
  if relay (L st !!! i) then
    let st1 := upd i tick_seconds st in
    if limit_trips (L st1 !!! i) then
      let st2 := digitalWrite (RELAY_PINS !!! i) RELAY_OFF st1 in
      let st3 := upd i (with_relay false) st2 in
      pushNotification (tnow env) (limit_text i) st3
    else st1
  else st.

(** Lines 301-306. *)
Definition timer_step (env : LoopEnv) (i : nat) (st : State) : State :=
  if timer_due (tnow env) (L st !!! i) then
    let st1 := digitalWrite (RELAY_PINS !!! i) RELAY_OFF st in
    let st2 := upd i (with_relay false) st1 in
    let st3 := upd i (with_timerEndEpoch 0) st2 in
    pushNotification (tnow env) (timer_text i) st3
  else st.

(** One iteration of [for(int i=0;i<4;i++)]. *)
Definition channel_step (env : LoopEnv) (i : nat) (st : State) : State :=
  timer_step env i (limit_step env i (meter_step env i st)).

(** The body of [loop] below the one-second test. *)
Definition tick (env : LoopEnv) (st : State) : State :=
  broadcastState
    (fold_left (fun s i => channel_step env i s) (seq 0 4) (set_lastSec (millis env) st)).

(** [loop]; the commands pumped by [webSocket.loop()] are separate calls
    of [handleWS]. *)
Definition loop (env : LoopEnv) (st : State) : State :=
  if C.to_ulong (millis env - lastSec st) <? 1000 then st else tick env st.

(** ** Boot *)

(** The globals as their initialisers leave them; [files] is the content
    of the flash partition, not yet mounted. *)
Definition power_on (files : FS) : State :=
  {| L := replicate 4 Load_default;
     unitPrice := IEEE.f64_of_Z 8;
     lastSec := 0;
     inaPresent := replicate 4 false;
     fs := mkFS false (settings_file files) (notifs_file files);
     emitted := [] |}.

(** [SPIFFS.begin(true)] *)
Definition initSPIFFS (mount_ok : bool) (st : State) : State :=
  set_fs (fun f => mkFS mount_ok (settings_file f) (notifs_file f)) st.

Definition init_pin (st : State) (i : nat) : State :=
  upd i (with_relay false) (digitalWrite (RELAY_PINS !!! i) RELAY_OFF st).

(** [inaPresent[i] = INA[i]->begin()] *)
Definition probe (ina_begin : nat -> bool) (st : State) (i : nat) : State :=
  set_inaPresent (<[i := ina_begin i]>) st.

Definition setup (mount_ok : bool) (ina_begin : nat -> bool) (st : State) : State :=
  let st1 := initSPIFFS mount_ok st in
  let st2 := fold_left init_pin (seq 0 4) st1 in
  let st3 := fold_left (probe ina_begin) (seq 0 4) st2 in
  loadSettingsFromFS st3.

(** A run of the device: commands and loop iterations in arrival order. *)
Inductive Event :=
| EvCommand (now : Z) (type : WStype_t) (payload : option JValue)
| EvLoop (env : LoopEnv).

Definition step (st : State) (e : Event) : State :=
  match e with
  | EvCommand now type payload => handleWS now type payload st
  | EvLoop env => loop env st
  end.

Definition run (evs : list Event) (st : State) : State := fold_left step evs st.

(** Consecutive passes of the per-second body. *)
Definition ticks (envs : list LoopEnv) (st : State) : State :=
  fold_left (fun s env => tick env s) envs st.

(** ** Observations *)

(** The log as [pushNotification] reads it back (lines 125-133): the
    [notifs] array of the document, empty when the file is missing. *)
Definition notification_log (st : State) : list Notif :=
  if fileExists_notifs st then default [] (notifs_file (fs st)) else [].

(** What a call appended to the device's output. *)
Definition produced (before after : State) : list Effect :=
  drop (length (emitted before)) (emitted after).

Definition notified (txt : string) (before after : State) : Prop :=
  BroadcastTXT (MsgNotification txt) ∈ produced before after.

(** The arrays have their declared size. *)
Definition wf (st : State) : Prop := length (L st) = 4%nat.

(** ** One channel through one pass

    The three blocks of the loop body read and write [L[i]] only, so what
    a pass does to a channel is a function of that channel's record. *)

Definition meter_view (env : LoopEnv) (present : bool) (price : spec_float)
    (i : nat) (l : Load) : Load :=
  if present then measure (sensor env i) price l
  else with_VIP (S754_zero false) (S754_zero false) (S754_zero false) l.

Definition limit_view (l : Load) : Load :=
  if relay l then
    if limit_trips (tick_seconds l) then with_relay false (tick_seconds l)
    else tick_seconds l
  else l.

Definition timer_view (now : Z) (l : Load) : Load :=
  if timer_due now l then with_timerEndEpoch 0 (with_relay false l) else l.

Definition channel_view (env : LoopEnv) (present : bool) (price : spec_float)
    (i : nat) (l : Load) : Load :=
  timer_view (tnow env) (limit_view (meter_view env present price i l)).

Definition limit_out (i : nat) (l : Load) : list Effect :=
  if relay l && limit_trips (tick_seconds l)
  then [DigitalWrite (RELAY_PINS !!! i) RELAY_OFF;
        BroadcastTXT (MsgNotification (limit_text i))]
  else [].

Definition timer_out (now : Z) (i : nat) (l : Load) : list Effect :=
  if timer_due now l
  then [DigitalWrite (RELAY_PINS !!! i) RELAY_OFF;
        BroadcastTXT (MsgNotification (timer_text i))]
  else [].

Definition channel_out (env : LoopEnv) (present : bool) (price : spec_float)
    (i : nat) (l : Load) : list Effect :=
  let l1 := meter_view env present price i l in
  limit_out i l1 ++ timer_out (tnow env) i (limit_view l1).

(** ** Inputs the handler drops

    The frames [handleWS] leaves without effect: a frame that is not text,
    a payload [deserializeJson] refuses, a document without a string under
    [cmd], a tag that is none of the five commands, and a channel command
    whose [id] is an [int] outside 1..4. *)



(** ** Persisted settings *)

(** The entry of [/settings.json] that [loadSettingsFromFS] applies to
    channel [i], if the partition mounts and the document parses. *)
Definition persisted_entry (mount_ok : bool) (files : FS) (i : nat)
    : option LoadSettings :=
  if mount_ok then
    match settings_file files with
    | Some (Parsed doc) => arr ← doc_loads doc; arr !! i
    | _ => None
    end
  else None.

(** ** Sample inputs *)

Definition no_files : FS := mkFS false None None.

(** A device that booted with an empty partition and found all sensors. *)
Definition booted : State := setup true (fun _ => true) (power_on no_files).

(** 1 V at 1000 mA. *)
Definition reading_1W : Reading :=
  mkReading (IEEE.f32_of_Z 1) (IEEE.f32_of_Z 1000).

(** The loop iteration [k] seconds after boot. *)
Definition second (k : Z) : LoopEnv :=
  mkLoopEnv (1000 * k) (1700000000 + k) (fun _ => reading_1W).

Definition seconds (from n : nat) : list LoopEnv :=
  map (fun k => second (Z.of_nat k)) (seq from n).

Definition cmd_at (t : Z) (members : list (string * JValue)) : Event :=
  EvCommand t WStype_TEXT (Some (JObj members)).

(** Channel 1 gets a 10 minute timer and a 5 second limit, is switched on,
    and runs for five seconds. *)
Definition limit_before_timer : list Event :=
  [ cmd_at 1700000000 [("cmd", JStr "setTimer"); ("id", JInt 1); ("minutes", JInt 10)];
    cmd_at 1700000000 [("cmd", JStr "setLimit"); ("id", JInt 1); ("seconds", JInt 5)];
    cmd_at 1700000000 [("cmd", JStr "relay"); ("id", JInt 1); ("state", JBool true)] ]
  ++ map EvLoop (seconds 1 5).

(** ** HTTP (static files) *)

(** [String::endsWith]: false when the suffix is longer than the string,
    else a comparison of the tail. *)
Definition endsWith (s suffix : string) : bool :=
  (String.length suffix <=? String.length s)%nat
  && String.eqb
       (String.substring (String.length s - String.length suffix)
                  (String.length suffix) s)
       suffix.

(** What the web server is told to answer: [server.send] or
    [server.streamFile]. *)
Inductive Response :=
| Send (code : Z) (content_type body : string)
| StreamFile (path content_type : string).

(** Lines 186-191. *)
Definition contentType (path : string) : string :=
  if endsWith path ".html" then "text/html"
  else if endsWith path ".js" then "application/javascript"
  else if endsWith path ".css" then "text/css"
  else if endsWith path ".json" then "application/json"
  else if endsWith path ".ico" then "image/x-icon"
  else "text/plain".

(** [handleFileRead]; [spiffs_exists] is [SPIFFS.exists]. *)
Definition handleFileRead (spiffs_exists : string -> bool) (path : string)
    : Response :=
  let path := if endsWith path "/" then path +:+ "index.html" else path in
  let ct := contentType path in
  if negb (spiffs_exists path) then Send 404 "text/plain" "Not found"
  else StreamFile path ct.

(** The catch-all handler registered with [server.onNotFound]. *)
Definition onNotFound (spiffs_exists : string -> bool) (uri : string)
    : Response :=
  let uri := if String.eqb uri "/" then "/index.html" else uri in
  if spiffs_exists uri then handleFileRead spiffs_exists uri
  else handleFileRead spiffs_exists "/index.html".

(** ** Further observations *)

(** The level last written to a pin in an output trace. *)
Definition pin_level (pin : Z) (evs : list Effect) : option bool :=
  fold_left
    (fun acc e =>
       match e with
       | DigitalWrite p level => if p =? pin then Some level else acc
       | _ => acc
       end)
    evs None.

(** The event is a relay command that asks channel [i] (from 0) on. *)
Definition switches_on (i : nat) (e : Event) : bool :=
  match e with
  | EvCommand _ WStype_TEXT (Some doc) =>
      match Json.as_cstr (Json.get doc "cmd") with
      | Some cmd =>
          String.eqb cmd "relay"
          && (Json.or_int (Json.get doc "id") 1 =? Z.of_nat i + 1)
          && Json.or_bool (Json.get doc "state") false
      | None => false
      end
  | _ => false
  end.

(** The settings file holds the configuration that is in memory. *)
Definition in_sync (st : State) : Prop :=
  settings_file (fs st) = Some (Parsed (settings_of st)).

(** The pins carry the relay flags. *)
Definition pins_follow (st : State) : Prop :=
  forall i, (i < 4)%nat ->
    pin_level (RELAY_PINS !!! i) (emitted st) = Some (relay (L st !!! i)).

(** A pass switches the channel off: the limit or the timer trips. *)
Definition tripped (now : Z) (l : Load) : bool :=
  (relay l && limit_trips (tick_seconds l)) || timer_due now l.

(** The second state has the mount flag, the settings file and the
    configuration in memory of the first. *)
Record same_config (st st' : State) : Prop := {
  sc_mounted : mounted (fs st') = mounted (fs st);
  sc_file : settings_file (fs st') = settings_file (fs st);
  sc_settings : settings_of st' = settings_of st
}.

(** ** Frame lemmas *)

Create Rewrite HintDb frame.

Section Frame.

Implicit Types (st : State) (i j : nat) (f : Load -> Load).

Lemma L_upd i f st : L (upd i f st) = alter f i (L st).
Proof. reflexivity. Qed.

Lemma L_pushNotification now s st : L (pushNotification now s st) = L st.
Proof. unfold pushNotification. destruct (mounted (fs st)); reflexivity. Qed.

Lemma L_saveSettingsToFS st : L (saveSettingsToFS st) = L st.
Proof. unfold saveSettingsToFS. destruct (mounted (fs st)); reflexivity. Qed.

Lemma unitPrice_pushNotification now s st :
  unitPrice (pushNotification now s st) = unitPrice st.
Proof. unfold pushNotification. destruct (mounted (fs st)); reflexivity. Qed.

Lemma inaPresent_pushNotification now s st :
  inaPresent (pushNotification now s st) = inaPresent st.
Proof. unfold pushNotification. destruct (mounted (fs st)); reflexivity. Qed.

Lemma lastSec_pushNotification now s st :
  lastSec (pushNotification now s st) = lastSec st.
Proof. unfold pushNotification. destruct (mounted (fs st)); reflexivity. Qed.

Lemma emitted_pushNotification now s st :
  emitted (pushNotification now s st)
  = emitted st ++ [BroadcastTXT (MsgNotification s)].
Proof. unfold pushNotification. destruct (mounted (fs st)); reflexivity. Qed.

Lemma lookup_upd_eq i f st :
  (i < length (L st))%nat -> L (upd i f st) !!! i = f (L st !!! i).
Proof. intros Hi. rewrite L_upd. now apply list_lookup_total_alter_eq. Qed.

Lemma lookup_upd_ne i j f st :
  i <> j -> L (upd i f st) !!! j = L st !!! j.
Proof. intros Hij. rewrite L_upd. now apply list_lookup_total_alter_ne. Qed.

Lemma length_upd i f st : length (L (upd i f st)) = length (L st).
Proof. rewrite L_upd. apply length_alter. Qed.

Lemma L_broadcastState st : L (broadcastState st) = L st.
Proof. reflexivity. Qed.
Lemma unitPrice_broadcastState st : unitPrice (broadcastState st) = unitPrice st.
Proof. reflexivity. Qed.
Lemma inaPresent_broadcastState st : inaPresent (broadcastState st) = inaPresent st.
Proof. reflexivity. Qed.
Lemma lastSec_broadcastState st : lastSec (broadcastState st) = lastSec st.
Proof. reflexivity. Qed.
Lemma emitted_broadcastState st :
  emitted (broadcastState st)
  = emitted st ++ [BroadcastTXT (MsgState (unitPrice st) (take 4 (L st)))].
Proof. reflexivity. Qed.

Lemma L_set_lastSec t st : L (set_lastSec t st) = L st.
Proof. reflexivity. Qed.
Lemma unitPrice_set_lastSec t st : unitPrice (set_lastSec t st) = unitPrice st.
Proof. reflexivity. Qed.
Lemma inaPresent_set_lastSec t st : inaPresent (set_lastSec t st) = inaPresent st.
Proof. reflexivity. Qed.
Lemma lastSec_set_lastSec t st : lastSec (set_lastSec t st) = t.
Proof. reflexivity. Qed.
Lemma emitted_set_lastSec t st : emitted (set_lastSec t st) = emitted st.
Proof. reflexivity. Qed.

(** Appending to the output and reading it back. *)
Lemma produced_app before after evs :
  emitted after = emitted before ++ evs -> produced before after = evs.
Proof. unfold produced. intros ->. apply drop_app_length. Qed.

End Frame.

#[global] Hint Rewrite L_pushNotification L_saveSettingsToFS
  unitPrice_pushNotification inaPresent_pushNotification
  lastSec_pushNotification emitted_pushNotification length_upd : frame.

(** ** The blocks of the loop body, channel by channel *)

Section Steps.

Context (env : LoopEnv).
Implicit Types (st : State) (i j : nat) (l : Load).

Lemma alter_total_ext (f g : Load -> Load) (ls : list Load) i :
  f (ls !!! i) = g (ls !!! i) -> alter f i ls = alter g i ls.
Proof.
  intros Hfg. apply list_alter_ext; [|reflexivity].
  intros x Hx. now rewrite <- (list_lookup_total_correct _ _ _ Hx).
Qed.

Lemma alter_total_id (f : Load -> Load) (ls : list Load) i :
  f (ls !!! i) = ls !!! i -> alter f i ls = ls.
Proof.
  intros Hf. rewrite (alter_total_ext f id) by exact Hf.
  now apply list_alter_id.
Qed.

(** A slot outside the array reads as the default record. *)
Lemma lookup_total_ge (ls : list Load) i :
  (length ls <= i)%nat -> ls !!! i = Load_default.
Proof.
  intros Hi. rewrite list_lookup_total_alt.
  now rewrite (lookup_ge_None_2 _ _ Hi).
Qed.

Lemma relay_in_range st i : relay (L st !!! i) = true -> (i < length (L st))%nat.
Proof.
  intros Hr. destruct (decide (i < length (L st))%nat) as [|Hge]; [assumption|].
  rewrite lookup_total_ge in Hr by lia. discriminate.
Qed.

Lemma timer_due_in_range now st i :
  timer_due now (L st !!! i) = true -> (i < length (L st))%nat.
Proof.
  intros Hd. destruct (decide (i < length (L st))%nat) as [|Hge]; [assumption|].
  rewrite lookup_total_ge in Hd by lia. discriminate.
Qed.

(** *** Metering *)

Lemma meter_step_upd i st :
  meter_step env i st
  = upd i (meter_view env (inaPresent st !!! i) (unitPrice st) i) st.
Proof.
  unfold meter_step, meter_view.
  now destruct (inaPresent st !!! i).
Qed.

(** *** Usage limit *)

Lemma L_limit_step i st : L (limit_step env i st) = alter limit_view i (L st).
Proof.
  unfold limit_step.
  destruct (relay (L st !!! i)) eqn:Hr.
  - pose proof (relay_in_range _ _ Hr) as Hi.
    rewrite lookup_upd_eq by exact Hi.
    destruct (limit_trips (tick_seconds (L st !!! i))) eqn:Ht.
    + rewrite L_pushNotification. cbn [upd digitalWrite emit set_L L].
      rewrite list_alter_alter_eq. apply alter_total_ext.
      unfold limit_view, compose. now rewrite Hr, Ht.
    + rewrite L_upd. apply alter_total_ext.
      unfold limit_view. now rewrite Hr, Ht.
  - symmetry. apply alter_total_id. unfold limit_view. now rewrite Hr.
Qed.

Lemma emitted_limit_step i st :
  emitted (limit_step env i st) = emitted st ++ limit_out i (L st !!! i).
Proof.
  unfold limit_step, limit_out.
  destruct (relay (L st !!! i)) eqn:Hr; cbn [andb].
  - pose proof (relay_in_range _ _ Hr) as Hi.
    rewrite lookup_upd_eq by exact Hi.
    destruct (limit_trips (tick_seconds (L st !!! i))).
    + rewrite emitted_pushNotification. cbn [upd digitalWrite emit set_L emitted].
      now rewrite <- app_assoc.
    + cbn. now rewrite app_nil_r.
  - now rewrite app_nil_r.
Qed.

Lemma unitPrice_limit_step i st : unitPrice (limit_step env i st) = unitPrice st.
Proof.
  unfold limit_step. repeat case_match; autorewrite with frame; reflexivity.
Qed.

Lemma inaPresent_limit_step i st : inaPresent (limit_step env i st) = inaPresent st.
Proof.
  unfold limit_step. repeat case_match; autorewrite with frame; reflexivity.
Qed.

Lemma lastSec_limit_step i st : lastSec (limit_step env i st) = lastSec st.
Proof.
  unfold limit_step. repeat case_match; autorewrite with frame; reflexivity.
Qed.

(** *** Timer *)

Lemma L_timer_step i st :
  L (timer_step env i st) = alter (timer_view (tnow env)) i (L st).
Proof.
  unfold timer_step.
  destruct (timer_due (tnow env) (L st !!! i)) eqn:Hd.
  - rewrite L_pushNotification. cbn [upd digitalWrite emit set_L L].
    rewrite list_alter_alter_eq. apply alter_total_ext.
    unfold timer_view, compose. now rewrite Hd.
  - symmetry. apply alter_total_id. unfold timer_view. now rewrite Hd.
Qed.

Lemma emitted_timer_step i st :
  emitted (timer_step env i st)
  = emitted st ++ timer_out (tnow env) i (L st !!! i).
Proof.
  unfold timer_step, timer_out.
  destruct (timer_due (tnow env) (L st !!! i)).
  - rewrite emitted_pushNotification. cbn [upd digitalWrite emit set_L emitted].
    now rewrite <- app_assoc.
  - now rewrite app_nil_r.
Qed.

Lemma unitPrice_timer_step i st : unitPrice (timer_step env i st) = unitPrice st.
Proof.
  unfold timer_step. repeat case_match; autorewrite with frame; reflexivity.
Qed.

Lemma inaPresent_timer_step i st : inaPresent (timer_step env i st) = inaPresent st.
Proof.
  unfold timer_step. repeat case_match; autorewrite with frame; reflexivity.
Qed.

Lemma lastSec_timer_step i st : lastSec (timer_step env i st) = lastSec st.
Proof.
  unfold timer_step. repeat case_match; autorewrite with frame; reflexivity.
Qed.

(** *** One iteration of the [for] loop *)

Lemma L_channel_step i st :
  L (channel_step env i st)
  = alter (channel_view env (inaPresent st !!! i) (unitPrice st) i) i (L st).
Proof.
  unfold channel_step.
  rewrite L_timer_step, L_limit_step, meter_step_upd, L_upd.
  now rewrite !list_alter_alter_eq.
Qed.

Lemma unitPrice_channel_step i st : unitPrice (channel_step env i st) = unitPrice st.
Proof.
  unfold channel_step.
  now rewrite unitPrice_timer_step, unitPrice_limit_step, meter_step_upd.
Qed.

Lemma inaPresent_channel_step i st :
  inaPresent (channel_step env i st) = inaPresent st.
Proof.
  unfold channel_step.
  now rewrite inaPresent_timer_step, inaPresent_limit_step, meter_step_upd.
Qed.

Lemma lastSec_channel_step i st : lastSec (channel_step env i st) = lastSec st.
Proof.
  unfold channel_step.
  now rewrite lastSec_timer_step, lastSec_limit_step, meter_step_upd.
Qed.

Lemma emitted_channel_step i st :
  (i < length (L st))%nat ->
  emitted (channel_step env i st)
  = emitted st
    ++ channel_out env (inaPresent st !!! i) (unitPrice st) i (L st !!! i).
Proof.
  intros Hi. unfold channel_step, channel_out.
  rewrite emitted_timer_step, emitted_limit_step, L_limit_step.
  rewrite meter_step_upd.
  rewrite list_lookup_total_alter_eq by (rewrite length_upd; exact Hi).
  rewrite lookup_upd_eq by exact Hi.
  cbn [upd set_L emitted]. now rewrite <- app_assoc.
Qed.

End Steps.

(** ** What the views keep and change *)

Section Views.

Implicit Types (l : Load) (now : Z).

Local Ltac by_cases :=
  intros;
  unfold channel_view, timer_view, limit_view, meter_view, measure,
    tick_seconds;
  repeat case_match; reflexivity.

Lemma Wh_limit_view l : Wh (limit_view l) = Wh l.
Proof. by_cases. Qed.
Lemma cost_limit_view l : cost (limit_view l) = cost l.
Proof. by_cases. Qed.
Lemma Wh_timer_view now l : Wh (timer_view now l) = Wh l.
Proof. by_cases. Qed.
Lemma cost_timer_view now l : cost (timer_view now l) = cost l.
Proof. by_cases. Qed.

Lemma relay_meter_view env b pr i l : relay (meter_view env b pr i l) = relay l.
Proof. by_cases. Qed.
Lemma onSecondsToday_meter_view env b pr i l :
  onSecondsToday (meter_view env b pr i l) = onSecondsToday l.
Proof. by_cases. Qed.
Lemma usageLimitSeconds_meter_view env b pr i l :
  usageLimitSeconds (meter_view env b pr i l) = usageLimitSeconds l.
Proof. by_cases. Qed.
Lemma timerEndEpoch_meter_view env b pr i l :
  timerEndEpoch (meter_view env b pr i l) = timerEndEpoch l.
Proof. by_cases. Qed.
Lemma timerEndEpoch_limit_view l : timerEndEpoch (limit_view l) = timerEndEpoch l.
Proof. by_cases. Qed.

Lemma usageLimitSeconds_channel_view env b pr i l :
  usageLimitSeconds (channel_view env b pr i l) = usageLimitSeconds l.
Proof. by_cases. Qed.
Lemma timerMinutes_channel_view env b pr i l :
  timerMinutes (channel_view env b pr i l) = timerMinutes l.
Proof. by_cases. Qed.


Lemma cost_channel_view env pr i l :
  cost (channel_view env true pr i l)
  = cost_of (Wh (channel_view env true pr i l)) pr.
Proof. by_cases. Qed.

(** An unmetered channel keeps both. *)
Lemma Wh_channel_view_absent env pr i l :
  Wh (channel_view env false pr i l) = Wh l.
Proof. by_cases. Qed.

Lemma cost_channel_view_absent env pr i l :
  cost (channel_view env false pr i l) = cost l.
Proof. by_cases. Qed.

(** No block of the pass switches a relay on. *)
Lemma relay_channel_view_off env b pr i l :
  relay l = false -> relay (channel_view env b pr i l) = false.
Proof.
  intros Hr. unfold channel_view, timer_view, limit_view.
  rewrite relay_meter_view, Hr. case_match; [reflexivity|].
  now rewrite relay_meter_view.
Qed.

(** A due deadline switches off and disarms, whatever the relay was. *)
Lemma timer_view_due now l :
  timer_due now l = true ->
  relay (timer_view now l) = false /\ timerEndEpoch (timer_view now l) = 0.
Proof. intros Hd. unfold timer_view. now rewrite Hd. Qed.

Lemma timer_due_channel_view env b pr i l :
  timer_due (tnow env) l = true ->
  relay (channel_view env b pr i l) = false
  /\ timerEndEpoch (channel_view env b pr i l) = 0.
Proof.
  intros Hd. apply timer_view_due.
  unfold timer_due in *.
  now rewrite timerEndEpoch_limit_view, timerEndEpoch_meter_view.
Qed.

Lemma limit_trips_meter_view env b pr i l :
  limit_trips (tick_seconds (meter_view env b pr i l))
  = limit_trips (tick_seconds l).
Proof. unfold meter_view. now destruct b. Qed.

Lemma timer_due_limit_meter env b pr i l :
  timer_due (tnow env) (limit_view (meter_view env b pr i l))
  = timer_due (tnow env) l.
Proof.
  unfold timer_due.
  now rewrite timerEndEpoch_limit_view, timerEndEpoch_meter_view.
Qed.

(** A limit trip switches off and announces it, and leaves the deadline
    to the timer block. *)
Lemma channel_view_limit_trip env b pr i l :
  relay l = true -> limit_trips (tick_seconds l) = true ->
  relay (channel_view env b pr i l) = false
  /\ timerEndEpoch (channel_view env b pr i l)
     = (if timer_due (tnow env) l then 0 else timerEndEpoch l)
  /\ BroadcastTXT (MsgNotification (limit_text i)) ∈ channel_out env b pr i l.
Proof.
  intros Hr Ht.
  assert (limit_view (meter_view env b pr i l)
          = with_relay false (tick_seconds (meter_view env b pr i l))) as Hlv.
  { unfold limit_view.
    now rewrite relay_meter_view, Hr, limit_trips_meter_view, Ht. }
  repeat split.
  - unfold channel_view, timer_view. rewrite Hlv. now case_match.
  - unfold channel_view, timer_view. rewrite timer_due_limit_meter.
    destruct (timer_due (tnow env) l); [reflexivity|].
    now rewrite timerEndEpoch_limit_view, timerEndEpoch_meter_view.
  - unfold channel_out, limit_out.
    rewrite relay_meter_view, Hr, limit_trips_meter_view, Ht.
    apply elem_of_app. left. apply list_elem_of_further, list_elem_of_here.
Qed.

(** A due deadline is announced and the pin written, relay on or off. *)
Lemma channel_out_timer_due env b pr i l :
  timer_due (tnow env) l = true ->
  BroadcastTXT (MsgNotification (timer_text i)) ∈ channel_out env b pr i l
  /\ DigitalWrite (RELAY_PINS !!! i) RELAY_OFF ∈ channel_out env b pr i l.
Proof.
  intros Hd. unfold channel_out, timer_out.
  rewrite timer_due_limit_meter, Hd.
  split; apply elem_of_app; right;
    [apply list_elem_of_further|]; apply list_elem_of_here.
Qed.

End Views.

(** ** A whole pass *)

Section Tick.

Context (env : LoopEnv).
Implicit Types (st : State) (i : nat).

Lemma tick_unfold st :
  tick env st
  = broadcastState
      (channel_step env 3 (channel_step env 2 (channel_step env 1
        (channel_step env 0 (set_lastSec (millis env) st))))).
Proof. reflexivity. Qed.

Lemma unitPrice_tick st : unitPrice (tick env st) = unitPrice st.
Proof.
  rewrite tick_unfold, unitPrice_broadcastState.
  now rewrite !unitPrice_channel_step.
Qed.

Lemma inaPresent_tick st : inaPresent (tick env st) = inaPresent st.
Proof.
  rewrite tick_unfold, inaPresent_broadcastState.
  now rewrite !inaPresent_channel_step.
Qed.

Lemma lastSec_tick st : lastSec (tick env st) = millis env.
Proof.
  rewrite tick_unfold, lastSec_broadcastState.
  now rewrite !lastSec_channel_step.
Qed.

Lemma L_tick st :
  let cv i := channel_view env (inaPresent st !!! i) (unitPrice st) i in
  L (tick env st)
  = alter (cv 3%nat) 3%nat (alter (cv 2%nat) 2%nat
      (alter (cv 1%nat) 1%nat (alter (cv 0%nat) 0%nat (L st)))).
Proof.
  intros cv. rewrite tick_unfold, L_broadcastState.
  rewrite !L_channel_step, !inaPresent_channel_step, !unitPrice_channel_step.
  now rewrite L_set_lastSec.
Qed.

Lemma wf_tick st : wf st -> wf (tick env st).
Proof. unfold wf. rewrite L_tick. cbn zeta. now rewrite !length_alter. Qed.

(** The pass acts on each channel through its view. *)
Lemma lookup_tick st i :
  wf st -> (i < 4)%nat ->
  L (tick env st) !!! i
  = channel_view env (inaPresent st !!! i) (unitPrice st) i (L st !!! i).
Proof.
  unfold wf. intros Hwf Hi. rewrite L_tick. cbn zeta.
  destruct i as [|[|[|[|]]]]; [| | | |lia];
    repeat first
      [ rewrite list_lookup_total_alter_ne by lia
      | rewrite list_lookup_total_alter_eq by (rewrite ?length_alter; lia) ];
    reflexivity.
Qed.

(** Everything a channel's blocks send out is part of the pass's output. *)
Lemma produced_tick st i e :
  wf st -> (i < 4)%nat ->
  e ∈ channel_out env (inaPresent st !!! i) (unitPrice st) i (L st !!! i) ->
  e ∈ produced st (tick env st).
Proof.
  unfold wf. intros Hwf Hi He.
  assert (exists evs,
    emitted (tick env st) = emitted st ++ evs
    /\ forall k, (k < 4)%nat ->
         channel_out env (inaPresent st !!! k) (unitPrice st) k (L st !!! k) ⊆ evs)
    as (evs & Hevs & Hsub).
  { rewrite tick_unfold, emitted_broadcastState.
    rewrite !emitted_channel_step
      by (rewrite ?L_channel_step, ?length_alter, L_set_lastSec; lia).
    rewrite !L_channel_step, !inaPresent_channel_step, !unitPrice_channel_step.
    rewrite L_set_lastSec, emitted_set_lastSec.
    rewrite unitPrice_set_lastSec, inaPresent_set_lastSec.
    repeat rewrite list_lookup_total_alter_ne by lia.
    rewrite <- !app_assoc. eexists. split; [reflexivity|].
    intros k Hk e' He'.
    destruct k as [|[|[|[|]]]]; [| | | |lia];
      rewrite !elem_of_app; tauto. }
  rewrite (produced_app _ _ _ Hevs). now apply (Hsub i).
Qed.

End Tick.

(** ** Consecutive passes *)

Section Ticks.

Implicit Types (st : State) (i : nat) (envs : list LoopEnv).

Lemma wf_ticks envs st : wf st -> wf (ticks envs st).
Proof.
  revert st. induction envs as [|env envs IH]; intros st Hwf; [exact Hwf|].
  apply IH. now apply wf_tick.
Qed.

Lemma unitPrice_ticks envs st : unitPrice (ticks envs st) = unitPrice st.
Proof.
  revert st. induction envs as [|env envs IH]; intros st; [reflexivity|].
  cbn. unfold ticks in IH. now rewrite IH, unitPrice_tick.
Qed.


Lemma ticks_app envs1 envs2 st :
  ticks (envs1 ++ envs2) st = ticks envs2 (ticks envs1 st).
Proof. apply fold_left_app. Qed.

(** A run of passes folds the channel's view over its record. *)
Lemma lookup_ticks envs st i :
  wf st -> (i < 4)%nat ->
  L (ticks envs st) !!! i
  = fold_left
      (fun l env => channel_view env (inaPresent st !!! i) (unitPrice st) i l)
      envs (L st !!! i).
Proof.
  revert st. induction envs as [|env envs IH]; intros st Hwf Hi; [reflexivity|].
  cbn. unfold ticks in IH.
  rewrite IH by (try apply wf_tick; assumption).
  now rewrite lookup_tick, inaPresent_tick, unitPrice_tick.
Qed.

End Ticks.

(** ** Commands *)

Section Commands.

Implicit Types (st : State) (doc : JValue) (now id : Z).

Lemma handleWS_relay now doc st :
  Json.get doc "cmd" = JStr "relay" ->
  handleWS now WStype_TEXT (Some doc) st = cmd_relay now doc st.
Proof. intros Hc. unfold handleWS. now rewrite Hc. Qed.

Lemma handleWS_setLimit now doc st :
  Json.get doc "cmd" = JStr "setLimit" ->
  handleWS now WStype_TEXT (Some doc) st = cmd_setLimit doc st.
Proof. intros Hc. unfold handleWS. now rewrite Hc. Qed.

Lemma handleWS_setPrice now doc st :
  Json.get doc "cmd" = JStr "setPrice" ->
  handleWS now WStype_TEXT (Some doc) st = cmd_setPrice doc st.
Proof. intros Hc. unfold handleWS. now rewrite Hc. Qed.

Lemma handleWS_clearNotifs now doc st :
  Json.get doc "cmd" = JStr "clearNotifs" ->
  handleWS now WStype_TEXT (Some doc) st = cmd_clearNotifs now st.
Proof. intros Hc. unfold handleWS. now rewrite Hc. Qed.

Lemma valid_id_range id : valid_id id = true <-> 1 <= id <= 4.
Proof. unfold valid_id. rewrite andb_true_iff, !Z.leb_le. tauto. Qed.

Lemma chan_lt id : 1 <= id <= 4 -> (chan id < 4)%nat.
Proof. unfold chan. lia. Qed.

Lemma or_int_JInt z d : C.fits_int z = true -> Json.or_int (JInt z) d = z.
Proof. intros Hz. cbn. now rewrite Hz. Qed.

Lemma fits_int_small z : C.INT_MIN <= z <= C.INT_MAX -> C.fits_int z = true.
Proof. unfold C.fits_int. rewrite andb_true_iff, !Z.leb_le. tauto. Qed.

(** Without overflow the stored deadline is the sum the source writes. *)
Lemma deadline_exact now m :
  0 <= now -> 0 <= m -> m * 60 <= C.INT_MAX -> now + m * 60 <= C.ULONG_MAX ->
  deadline now m = now + m * 60.
Proof.
  unfold deadline, C.to_ulong, C.to_int, C.INT_MAX, C.ULONG_MAX.
  intros Hnow Hm Hint Hul.
  rewrite (Z.mod_small (m * 60 + 2 ^ 31)) by lia.
  rewrite Z.mod_small by lia. lia.
Qed.

(** The record a relay command leaves in its channel's slot. *)
Lemma cmd_relay_lookup now doc st id b :
  wf st ->
  Json.or_int (Json.get doc "id") 1 = id ->
  Json.or_bool (Json.get doc "state") false = b ->
  1 <= id <= 4 ->
  let l := L st !!! chan id in
  L (cmd_relay now doc st) !!! chan id
  = with_timerEndEpoch
      (if b && (0 <? timerMinutes l) then deadline now (timerMinutes l) else 0)
      (with_relay b l).
Proof.
  unfold wf. intros Hwf Hid Hb Hr. set (l := L st !!! chan id).
  assert (chan id < length (L st))%nat as Hi by (rewrite Hwf; now apply chan_lt).
  unfold cmd_relay. rewrite Hid, Hb.
  rewrite (proj2 (valid_id_range id) Hr).
  rewrite L_pushNotification.
  assert (L (upd (chan id) (with_relay b)
               (digitalWrite (RELAY_PINS !!! chan id)
                  (if b then RELAY_ON else RELAY_OFF) st)) !!! chan id
          = with_relay b l) as Hl.
  { now rewrite lookup_upd_eq. }
  rewrite Hl. change (timerMinutes (with_relay b l)) with (timerMinutes l).
  destruct (b && (0 <? timerMinutes l));
    rewrite lookup_upd_eq by (now rewrite length_upd); now rewrite Hl.
Qed.

Lemma wf_cmd_relay now doc st : wf st -> wf (cmd_relay now doc st).
Proof.
  unfold wf, cmd_relay. intros Hwf.
  repeat case_match; autorewrite with frame; exact Hwf.
Qed.

(** The record an accepted [setLimit] leaves in its channel's slot. *)
Lemma cmd_setLimit_lookup doc st id s :
  wf st ->
  Json.or_int (Json.get doc "id") 1 = id ->
  Json.or_int (Json.get doc "seconds") 0 = s ->
  1 <= id <= 4 -> 0 < s <= C.ULONG_MAX ->
  L (cmd_setLimit doc st) !!! chan id
  = with_usageLimitSeconds s (L st !!! chan id).
Proof.
  unfold wf. intros Hwf Hid Hs Hr Hpos.
  assert (chan id < length (L st))%nat as Hi by (rewrite Hwf; now apply chan_lt).
  unfold cmd_setLimit. rewrite Hid, Hs.
  assert (C.to_ulong s = s) as ->
    by (unfold C.to_ulong, C.ULONG_MAX in *; apply Z.mod_small; lia).
  rewrite (proj2 (valid_id_range id) Hr).
  assert ((0 <? s) = true) as -> by (apply Z.ltb_lt; lia).
  cbn [andb]. rewrite L_saveSettingsToFS. now rewrite lookup_upd_eq.
Qed.

Lemma wf_cmd_setLimit doc st : wf st -> wf (cmd_setLimit doc st).
Proof.
  unfold wf, cmd_setLimit. intros Hwf.
  repeat case_match; autorewrite with frame; exact Hwf.
Qed.

(** Reading a field that an update does not touch. *)
Lemma lookup_alter_keeps {A} (proj : Load -> A) (f : Load -> Load)
    (ls : list Load) (i j : nat) :
  (forall l, proj (f l) = proj l) ->
  proj (alter f i ls !!! j) = proj (ls !!! j).
Proof.
  intros Hf. rewrite list_lookup_total_alter.
  destruct (decide (i = j /\ (i < length ls)%nat)) as [[Heq _]|];
    [subst j; apply Hf | reflexivity].
Qed.

(** No command writes a channel's energy or cost. *)
Lemma handleWS_keeps_meter now type payload st j :
  Wh (L (handleWS now type payload st) !!! j) = Wh (L st !!! j)
  /\ cost (L (handleWS now type payload st) !!! j) = cost (L st !!! j).
Proof.
  unfold handleWS, cmd_relay, cmd_setTimer, cmd_setLimit, cmd_setPrice,
    cmd_clearNotifs.
  repeat case_match; autorewrite with frame; try (split; reflexivity);
    rewrite ?L_upd;
    split; repeat (rewrite lookup_alter_keeps by reflexivity); reflexivity.
Qed.

End Commands.

(** ** The notification log and [clearNotifs] *)

(** Membership in a literal list. *)
Ltac in_list :=
  repeat first [apply list_elem_of_here | apply list_elem_of_further].


(** C1, as stated, fails: after [clearNotifs] the log is not empty. *)
Lemma clearNotifs_log_not_empty :
  notification_log
    (handleWS 1700000000 WStype_TEXT (Some (JObj [("cmd", JStr "clearNotifs")]))
       booted)
  <> [].
Proof. vm_compute. discriminate. Qed.

(** C1, amended: [clearNotifs] removes every earlier entry; the log read
    afterwards holds exactly the one entry "Notifs cleared" that the
    command itself appends (and reads as empty on an unmounted
    partition). *)
Theorem clearNotifs_log now doc st :
  Json.get doc "cmd" = JStr "clearNotifs" ->
  notification_log (handleWS now WStype_TEXT (Some doc) st)
  = if mounted (fs st) then [{| ts := now; text := "Notifs cleared" |}] else [].
Proof.
  intros Hc. rewrite handleWS_clearNotifs by exact Hc.
  destruct st as [ls price last ina [m sf nf] out].
  unfold cmd_clearNotifs, pushNotification, notification_log, fileExists_notifs.
  destruct m; reflexivity.
Qed.

Lemma clearNotifs_log_witness :
  notification_log
    (handleWS 1700000000 WStype_TEXT (Some (JObj [("cmd", JStr "clearNotifs")]))
       booted)
  = [{| ts := 1700000000; text := "Notifs cleared" |}].
Proof.
  exact (clearNotifs_log 1700000000 (JObj [("cmd", JStr "clearNotifs")]) booted
           eq_refl).
Defined.

(** ** Dropped commands *)





(** ** Relay commands *)

(** C7: a valid relay command stores the requested state; switching on with
    [timerMinutes > 0] arms the deadline [now + minutes*60], every other case
    clears it to 0.  Hence on-then-off clears the deadline, and a later on
    arms a fresh one counted from the new time.  The sums are taken within
    the range of the C types. *)
Theorem relay_command_sets_deadline st now doc id b :
  wf st ->
  Json.get doc "cmd" = JStr "relay" ->
  Json.get doc "id" = JInt id -> 1 <= id <= 4 ->
  Json.get doc "state" = JBool b ->
  let m := timerMinutes (L st !!! chan id) in
  0 <= now -> m * 60 <= C.INT_MAX -> now + m * 60 <= C.ULONG_MAX ->
  let st' := handleWS now WStype_TEXT (Some doc) st in
  (relay (L st' !!! chan id) = b
   /\ timerEndEpoch (L st' !!! chan id)
      = (if b && (0 <? m) then now + m * 60 else 0)
   /\ timerMinutes (L st' !!! chan id) = m)
  /\ (forall t1 t2 t3 on off,
        Json.get on "cmd" = JStr "relay" -> Json.get on "id" = JInt id ->
        Json.get on "state" = JBool true ->
        Json.get off "cmd" = JStr "relay" -> Json.get off "id" = JInt id ->
        Json.get off "state" = JBool false ->
        0 < m -> 0 <= t1 -> 0 <= t3 -> t3 + m * 60 <= C.ULONG_MAX ->
        let s1 := handleWS t1 WStype_TEXT (Some on) st in
        let s2 := handleWS t2 WStype_TEXT (Some off) s1 in
        let s3 := handleWS t3 WStype_TEXT (Some on) s2 in
        timerEndEpoch (L s2 !!! chan id) = 0
        /\ relay (L s2 !!! chan id) = false
        /\ timerEndEpoch (L s3 !!! chan id) = t3 + m * 60
        /\ relay (L s3 !!! chan id) = true).
Proof.
  intros Hwf Hc Hid Hr Hb m Hnow Hint Hul st'.
  assert (C.fits_int id = true) as Hfit
    by (apply fits_int_small; unfold C.INT_MIN, C.INT_MAX; lia).
  assert (forall t d s x, wf s ->
            Json.get d "cmd" = JStr "relay" -> Json.get d "id" = JInt id ->
            Json.get d "state" = JBool x ->
            L (handleWS t WStype_TEXT (Some d) s) !!! chan id
            = with_timerEndEpoch
                (if x && (0 <? timerMinutes (L s !!! chan id))
                 then deadline t (timerMinutes (L s !!! chan id)) else 0)
                (with_relay x (L s !!! chan id))) as Hstep.
  { intros t d s x Hs Hdc Hdi Hdx. rewrite handleWS_relay by exact Hdc.
    apply cmd_relay_lookup; try assumption.
    - now rewrite Hdi, or_int_JInt.
    - now rewrite Hdx. }
  assert (forall t d s, wf s -> Json.get d "cmd" = JStr "relay" ->
            wf (handleWS t WStype_TEXT (Some d) s)) as Hwfs.
  { intros t d s Hs Hdc. rewrite handleWS_relay by exact Hdc.
    now apply wf_cmd_relay. }
  split.
  - subst st'. rewrite (Hstep now doc st b) by assumption. fold m.
    repeat split.
    destruct b; [|reflexivity]. cbn [andb with_timerEndEpoch timerEndEpoch].
    destruct (0 <? m) eqn:Hm; [|reflexivity].
    apply Z.ltb_lt in Hm. apply deadline_exact; lia.
  - intros t1 t2 t3 on off Hon1 Hon2 Hon3 Hoff1 Hoff2 Hoff3 Hm Ht1 Ht3 Hul3 s1 s2 s3.
    assert (wf s1) as Hw1 by (apply Hwfs; assumption).
    assert (wf s2) as Hw2 by (apply Hwfs; assumption).
    assert (L s1 !!! chan id
            = with_timerEndEpoch (deadline t1 m) (with_relay true (L st !!! chan id)))
      as H1.
    { subst s1. rewrite (Hstep t1 on st true) by assumption. fold m.
      now rewrite (proj2 (Z.ltb_lt 0 m) Hm). }
    assert (L s2 !!! chan id = with_timerEndEpoch 0 (with_relay false (L s1 !!! chan id)))
      as H2.
    { subst s2. now rewrite (Hstep t2 off s1 false) by assumption. }
    assert (timerMinutes (L s2 !!! chan id) = m) as Hm2.
    { rewrite H2, H1. reflexivity. }
    assert (L s3 !!! chan id
            = with_timerEndEpoch (deadline t3 m) (with_relay true (L s2 !!! chan id)))
      as H3.
    { subst s3. rewrite (Hstep t3 on s2 true) by assumption.
      now rewrite Hm2, (proj2 (Z.ltb_lt 0 m) Hm). }
    rewrite H3, H2. cbn [with_timerEndEpoch with_relay timerEndEpoch relay].
    repeat split. apply deadline_exact; lia.
Qed.

Lemma relay_command_sets_deadline_witness :
  let doc := JObj [("cmd", JStr "relay"); ("id", JInt 2); ("state", JBool true)] in
  let st := upd 1 (with_timerMinutes 10) booted in
  let st' := handleWS 1700000000 WStype_TEXT (Some doc) st in
  relay (L st' !!! 1%nat) = true
  /\ timerEndEpoch (L st' !!! 1%nat) = 1700000600
  /\ timerMinutes (L st' !!! 1%nat) = 10.
Proof.
  refine (proj1 (relay_command_sets_deadline
            (upd 1 (with_timerMinutes 10) booted) 1700000000
            (JObj [("cmd", JStr "relay"); ("id", JInt 2); ("state", JBool true)])
            2 true eq_refl eq_refl eq_refl _ eq_refl _ _ _));
    vm_compute; try split; discriminate.
Defined.

(** ** Usage limit commands *)

(** C8: [setLimit] with [seconds] 0 changes nothing: the limit keeps its
    value, the settings file is not written and nothing is sent, whatever
    the channel id. *)
Theorem setLimit_zero_is_noop st now doc :
  Json.get doc "cmd" = JStr "setLimit" ->
  Json.get doc "seconds" = JInt 0 ->
  handleWS now WStype_TEXT (Some doc) st = st.
Proof.
  intros Hc Hs. rewrite handleWS_setLimit by exact Hc.
  unfold cmd_setLimit. rewrite Hs. cbn.
  now rewrite andb_false_r.
Qed.

Lemma setLimit_zero_is_noop_witness :
  handleWS 1700000000 WStype_TEXT
    (Some (JObj [("cmd", JStr "setLimit"); ("id", JInt 3); ("seconds", JInt 0)]))
    booted
  = booted.
Proof.
  exact (setLimit_zero_is_noop booted 1700000000
           (JObj [("cmd", JStr "setLimit"); ("id", JInt 3); ("seconds", JInt 0)])
           eq_refl eq_refl).
Defined.

(** C6: with the relay on and [lim - 1] seconds counted, [setLimit] to
    [lim] leaves the relay on; every later loop iteration that comes before
    a full second has elapsed changes nothing, and the first one that runs
    the per-second pass switches the relay off and announces the limit. *)
Theorem setLimit_trips_at_next_tick st now doc id lim :
  wf st ->
  Json.get doc "cmd" = JStr "setLimit" ->
  Json.get doc "id" = JInt id -> 1 <= id <= 4 ->
  Json.get doc "seconds" = JInt lim -> 1 <= lim <= C.INT_MAX ->
  relay (L st !!! chan id) = true ->
  onSecondsToday (L st !!! chan id) = lim - 1 ->
  let st1 := handleWS now WStype_TEXT (Some doc) st in
  relay (L st1 !!! chan id) = true
  /\ usageLimitSeconds (L st1 !!! chan id) = lim
  /\ forall env,
       if C.to_ulong (millis env - lastSec st1) <? 1000
       then loop env st1 = st1
       else relay (L (loop env st1) !!! chan id) = false
            /\ notified (limit_text (chan id)) st1 (loop env st1).
Proof.
  intros Hwf Hc Hid Hr Hs Hlim Hon Hsec st1.
  assert (L st1 !!! chan id = with_usageLimitSeconds lim (L st !!! chan id)) as Hl.
  { subst st1. rewrite handleWS_setLimit by exact Hc.
    apply cmd_setLimit_lookup; try assumption.
    - rewrite Hid. apply or_int_JInt, fits_int_small.
      unfold C.INT_MIN, C.INT_MAX. lia.
    - rewrite Hs. apply or_int_JInt, fits_int_small.
      unfold C.INT_MIN, C.INT_MAX in *. lia.
    - unfold C.INT_MAX, C.ULONG_MAX in *. lia. }
  assert (wf st1) as Hwf1.
  { subst st1. rewrite handleWS_setLimit by exact Hc. now apply wf_cmd_setLimit. }
  assert (relay (L st1 !!! chan id) = true) as Hon1 by (now rewrite Hl).
  assert (limit_trips (tick_seconds (L st1 !!! chan id)) = true) as Htrip.
  { rewrite Hl. unfold limit_trips, tick_seconds.
    cbn [with_usageLimitSeconds with_onSecondsToday usageLimitSeconds
         onSecondsToday].
    rewrite Hsec. replace (lim - 1 + 1) with lim by lia.
    unfold C.to_ulong. rewrite Z.mod_small by (unfold C.INT_MAX in Hlim; lia).
    apply andb_true_iff. split; [apply Z.ltb_lt | apply Z.leb_le]; lia. }
  split; [exact Hon1|]. split; [now rewrite Hl|].
  intros env. unfold loop.
  destruct (C.to_ulong (millis env - lastSec st1) <? 1000); [reflexivity|].
  pose proof (chan_lt id Hr) as Hi.
  destruct (channel_view_limit_trip env (inaPresent st1 !!! chan id)
              (unitPrice st1) (chan id) _ Hon1 Htrip) as (Hoff & _ & Hout).
  split.
  - now rewrite lookup_tick.
  - now apply (produced_tick env st1 (chan id)).
Qed.

Lemma setLimit_trips_at_next_tick_witness :
  let doc := JObj [("cmd", JStr "setLimit"); ("id", JInt 1); ("seconds", JInt 3)] in
  let st := upd 0 (fun l => with_onSecondsToday 2 (with_relay true l)) booted in
  let st1 := handleWS 1700000002 WStype_TEXT (Some doc) st in
  relay (L st1 !!! 0%nat) = true
  /\ relay (L (loop (second 3) st1) !!! 0%nat) = false
  /\ notified "Relay 1 auto OFF by limit" st1 (loop (second 3) st1).
Proof.
  intros doc st st1.
  destruct (setLimit_trips_at_next_tick st 1700000002 doc 1 3)
    as (Hon & _ & Hnext); try reflexivity; try (vm_compute; split; discriminate).
  split; [exact Hon|]. exact (Hnext (second 3)).
Defined.

(** ** Limit and timer in the per-second pass *)

(** C2 fails on the code.  Channel 1 has a 10 minute timer and a 5 second
    limit and is switched on at 1700000000; the fifth pass trips the limit,
    switches the relay off and announces it, and the deadline 1700000600
    stays armed. *)
Lemma limit_trip_leaves_deadline_armed :
  let before := run (take 7 limit_before_timer) booted in
  let after := run limit_before_timer booted in
  relay (L before !!! 0%nat) = true
  /\ timerEndEpoch (L before !!! 0%nat) = 1700000600
  /\ relay (L after !!! 0%nat) = false
  /\ notified "Relay 1 auto OFF by limit" before after
  /\ timerEndEpoch (L after !!! 0%nat) = 1700000600.
Proof.
  cbn zeta.
  split; [vm_compute; reflexivity|].
  split; [vm_compute; reflexivity|].
  split; [vm_compute; reflexivity|].
  split; [|vm_compute; reflexivity].
  unfold notified. vm_compute. in_list.
Qed.

(** C9: the timer block of the pass looks at the deadline only.  When the
    deadline is armed and reached, the pass leaves the relay off and the
    deadline 0, writes the pin low and announces "auto OFF by timer",
    whether the relay was on or off.  In particular a limit trip that comes
    before the deadline leaves it armed, and the pass that reaches it
    announces the timer on a channel that is already off. *)
Theorem timer_check_ignores_relay st env i :
  wf st -> (i < 4)%nat ->
  timer_due (tnow env) (L st !!! i) = true ->
  (relay (L (tick env st) !!! i) = false
   /\ timerEndEpoch (L (tick env st) !!! i) = 0
   /\ notified (timer_text i) st (tick env st)
   /\ DigitalWrite (RELAY_PINS !!! i) RELAY_OFF ∈ produced st (tick env st))
  /\ (forall st0 env0,
        wf st0 ->
        relay (L st0 !!! i) = true ->
        limit_trips (tick_seconds (L st0 !!! i)) = true ->
        timer_due (tnow env0) (L st0 !!! i) = false ->
        timer_due (tnow env) (L st0 !!! i) = true ->
        let st1 := tick env0 st0 in
        relay (L st1 !!! i) = false
        /\ timerEndEpoch (L st1 !!! i) = timerEndEpoch (L st0 !!! i)
        /\ notified (limit_text i) st0 st1
        /\ notified (timer_text i) st1 (tick env st1)).
Proof.
  assert (forall s, wf s -> (i < 4)%nat -> timer_due (tnow env) (L s !!! i) = true ->
            relay (L (tick env s) !!! i) = false
            /\ timerEndEpoch (L (tick env s) !!! i) = 0
            /\ notified (timer_text i) s (tick env s)
            /\ DigitalWrite (RELAY_PINS !!! i) RELAY_OFF ∈ produced s (tick env s))
    as Hdue.
  { intros s Hs Hi Hd.
    destruct (timer_due_channel_view env (inaPresent s !!! i) (unitPrice s) i _ Hd)
      as [Hoff Hzero].
    destruct (channel_out_timer_due env (inaPresent s !!! i) (unitPrice s) i _ Hd)
      as [Hmsg Hpin].
    rewrite lookup_tick by assumption.
    repeat split; try assumption; now apply (produced_tick env s i). }
  intros Hwf Hi Hd. split; [now apply Hdue|].
  intros st0 env0 Hwf0 Hon Htrip Hnot Hlater st1.
  destruct (channel_view_limit_trip env0 (inaPresent st0 !!! i) (unitPrice st0) i
              _ Hon Htrip) as (Hoff & Hkeep & Hmsg).
  rewrite Hnot in Hkeep.
  assert (L st1 !!! i
          = channel_view env0 (inaPresent st0 !!! i) (unitPrice st0) i (L st0 !!! i))
    as Hl by (subst st1; now rewrite lookup_tick).
  rewrite Hl. repeat split; try assumption.
  - now apply (produced_tick env0 st0 i).
  - apply Hdue; [now apply wf_tick | assumption |].
    rewrite Hl. unfold timer_due in *. now rewrite Hkeep.
Qed.

Lemma timer_check_ignores_relay_witness :
  let st := run limit_before_timer booted in
  let st' := tick (second 600) st in
  relay (L st !!! 0%nat) = false
  /\ relay (L st' !!! 0%nat) = false
  /\ timerEndEpoch (L st' !!! 0%nat) = 0
  /\ notified "Relay 1 auto OFF by timer" st st'.
Proof.
  intros st st'.
  destruct (proj1 (timer_check_ignores_relay st (second 600) 0
                     eq_refl (le_n_S _ _ (le_S _ _ (le_S _ _ (le_S _ _ (le_n 0)))))
                     eq_refl))
    as (Hoff & Hzero & Hmsg & _).
  split; [reflexivity|]. split; [exact Hoff|]. split; [exact Hzero | exact Hmsg].
Defined.

(** ** Energy and cost *)





(** C5, as stated, fails: one pass at 1 W ties the cost to the price 8;
    [setPrice] to 10 then changes the price and leaves the stored cost. *)
Lemma setPrice_leaves_cost_stale :
  let st := tick (second 1) booted in
  let st' := handleWS 1700000001 WStype_TEXT
               (Some (JObj [("cmd", JStr "setPrice"); ("price", JInt 10)])) st in
  cost (L st !!! 0%nat) = cost_of (Wh (L st !!! 0%nat)) (unitPrice st)
  /\ unitPrice st' = IEEE.f64_of_Z 10
  /\ cost (L st' !!! 0%nat) = cost (L st !!! 0%nat)
  /\ cost (L st' !!! 0%nat) <> cost_of (Wh (L st' !!! 0%nat)) (unitPrice st').
Proof.
  cbn zeta.
  split; [vm_compute; reflexivity|].
  split; [vm_compute; reflexivity|].
  split; [vm_compute; reflexivity|].
  vm_compute. discriminate.
Qed.

(** C5, amended: every pass recomputes the cost of a channel with a sensor
    as (energy/1000.0)×unitPrice from the energy and price of that moment; a
    channel without a sensor keeps energy and cost; and no command, [setPrice]
    included, writes energy or cost, so after [setPrice] the stored cost still
    belongs to the old price until the next pass. *)
Theorem cost_recomputed_by_tick_only st i :
  wf st -> (i < 4)%nat ->
  (forall env,
     let st' := tick env st in
     if (inaPresent st !!! i : bool)
     then cost (L st' !!! i) = cost_of (Wh (L st' !!! i)) (unitPrice st')
     else Wh (L st' !!! i) = Wh (L st !!! i)
          /\ cost (L st' !!! i) = cost (L st !!! i))
  /\ (forall now type payload,
        let st' := handleWS now type payload st in
        Wh (L st' !!! i) = Wh (L st !!! i)
        /\ cost (L st' !!! i) = cost (L st !!! i)).
Proof.
  intros Hwf Hi. split.
  - intros env st'. subst st'.
    rewrite lookup_tick, unitPrice_tick by assumption.
    destruct (inaPresent st !!! i).
    + apply cost_channel_view.
    + split; [apply Wh_channel_view_absent | apply cost_channel_view_absent].
  - intros now type payload st'. apply handleWS_keeps_meter.
Qed.

Lemma cost_recomputed_by_tick_only_witness :
  let st' := tick (second 1) booted in
  cost (L st' !!! 0%nat) = cost_of (Wh (L st' !!! 0%nat)) (unitPrice st').
Proof.
  refine (proj1 (cost_recomputed_by_tick_only booted 0 eq_refl _) (second 1)).
  lia.
Defined.

(** ** Boot and the default usage limit *)

Section Boot.

Implicit Types (st : State) (i k : nat) (arr : list LoadSettings).

Lemma wf_load_entries arr : forall k st, wf st -> wf (load_entries k arr st).
Proof.
  unfold wf. induction arr as [|e arr IH]; intros k st Hwf; [exact Hwf|].
  cbn [load_entries]. case_match; [|exact Hwf].
  apply IH. now rewrite length_upd.
Qed.

(** Entry [j] of the array lands in slot [k + j], up to slot 3. *)
Lemma lookup_load_entries arr : forall k st i,
  wf st ->
  L (load_entries k arr st) !!! i
  = if decide (k <= i < 4)%nat
    then match arr !! (i - k)%nat with
         | Some e => load_entry e (L st !!! i)
         | None => L st !!! i
         end
    else L st !!! i.
Proof.
  unfold wf. induction arr as [|e arr IH]; intros k st i Hwf.
  - cbn [load_entries]. now repeat case_match.
  - cbn [load_entries]. destruct (k <? 4)%nat eqn:Hk.
    + apply Nat.ltb_lt in Hk.
      rewrite IH by (now rewrite length_upd).
      destruct (decide (i = k)) as [->|Hne].
      * rewrite lookup_upd_eq by lia.
        rewrite decide_False by lia. rewrite decide_True by lia.
        now rewrite Nat.sub_diag.
      * rewrite lookup_upd_ne by congruence.
        destruct (decide (S k <= i < 4)%nat) as [Hin|Hout].
        -- rewrite decide_True by lia.
           replace (i - k)%nat with (S (i - S k)) by lia. reflexivity.
        -- now rewrite decide_False by lia.
    + apply Nat.ltb_ge in Hk. now rewrite decide_False by lia.
Qed.

(** What [setup] leaves in a channel's slot: the defaults of [struct
    Load], overwritten by the persisted entry for the channel. *)
Lemma lookup_setup mount_ok ina_begin files i :
  (i < 4)%nat ->
  L (setup mount_ok ina_begin (power_on files)) !!! i
  = match persisted_entry mount_ok files i with
    | Some e => load_entry e Load_default
    | None => Load_default
    end.
Proof.
  intros Hi. unfold setup, persisted_entry.
  set (st3 := fold_left (probe ina_begin) (seq 0 4) _).
  assert (L st3 = replicate 4 Load_default) as HL by reflexivity.
  assert (fs st3 = mkFS mount_ok (settings_file files) (notifs_file files))
    as Hfs by reflexivity.
  assert (L st3 !!! i = Load_default) as Hdef.
  { rewrite HL. now apply lookup_total_replicate_2. }
  assert (wf st3) as Hwf by (unfold wf; now rewrite HL).
  clearbody st3.
  unfold loadSettingsFromFS, fileExists_settings. rewrite Hfs.
  cbn [mounted settings_file].
  destruct mount_ok; cbn [andb negb];
    [|now rewrite L_saveSettingsToFS].
  destruct (settings_file files) as [[|doc]|]; cbn [present_file negb];
    [exact Hdef| |now rewrite L_saveSettingsToFS].
  destruct (doc_unitPrice doc), (doc_loads doc) as [arr|]; cbn [mbind option_bind];
    try exact Hdef;
    rewrite lookup_load_entries by exact Hwf;
    rewrite decide_True by lia; rewrite Nat.sub_0_r;
    change (L (set_unitPrice _ st3)) with (L st3); now rewrite Hdef.
Qed.

Lemma wf_setup mount_ok ina_begin files :
  wf (setup mount_ok ina_begin (power_on files)).
Proof.
  unfold setup.
  set (st3 := fold_left (probe ina_begin) (seq 0 4) _).
  assert (wf st3) as Hwf by reflexivity.
  clearbody st3.
  unfold loadSettingsFromFS.
  destruct (negb (fileExists_settings st3)).
  - unfold wf. now rewrite L_saveSettingsToFS.
  - destruct (settings_file (fs st3)) as [[|doc]|]; try exact Hwf.
    destruct (doc_unitPrice doc), (doc_loads doc); try exact Hwf;
      now apply wf_load_entries.
Qed.

(** An entry changes the limit and the timer minutes only. *)
Lemma load_entry_fields e l :
  relay (load_entry e l) = relay l
  /\ onSecondsToday (load_entry e l) = onSecondsToday l
  /\ timerEndEpoch (load_entry e l) = timerEndEpoch l
  /\ usageLimitSeconds (load_entry e l)
     = default (usageLimitSeconds l) (limitSec e).
Proof. unfold load_entry. destruct (limitSec e), (timerMin e); now cbn. Qed.

End Boot.

(** ** A channel left on *)

Section LeftOn.

Context (b : bool) (pr : spec_float) (i : nat).
Implicit Types (l : Load) (envs : list LoopEnv).

Local Abbreviation run_view envs l :=
  (fold_left (fun l' env => channel_view env b pr i l') envs l).

(** Below the limit and with no deadline armed a pass counts one second
    and leaves the relay on. *)
Lemma channel_view_counts env l :
  relay l = true -> timerEndEpoch l = 0 ->
  0 <= onSecondsToday l -> onSecondsToday l + 1 < usageLimitSeconds l ->
  usageLimitSeconds l <= C.ULONG_MAX ->
  relay (channel_view env b pr i l) = true
  /\ timerEndEpoch (channel_view env b pr i l) = 0
  /\ onSecondsToday (channel_view env b pr i l) = onSecondsToday l + 1.
Proof.
  intros Hr Ht H0 Hlt Hmax.
  assert (C.to_ulong (onSecondsToday l + 1) = onSecondsToday l + 1) as Hw
    by (unfold C.to_ulong, C.ULONG_MAX in *; apply Z.mod_small; lia).
  assert (limit_view (meter_view env b pr i l)
          = tick_seconds (meter_view env b pr i l)) as Hlv.
  { unfold limit_view. rewrite relay_meter_view, Hr, limit_trips_meter_view.
    unfold limit_trips, tick_seconds. cbn [with_onSecondsToday
      usageLimitSeconds onSecondsToday]. rewrite Hw.
    replace (usageLimitSeconds l <=? onSecondsToday l + 1) with false
      by (symmetry; apply Z.leb_gt; lia).
    now rewrite andb_false_r. }
  unfold channel_view, timer_view. rewrite Hlv.
  assert (timer_due (tnow env) (tick_seconds (meter_view env b pr i l)) = false)
    as ->.
  { unfold timer_due, tick_seconds. cbn [with_onSecondsToday timerEndEpoch].
    now rewrite timerEndEpoch_meter_view, Ht. }
  unfold tick_seconds.
  cbn [with_onSecondsToday relay timerEndEpoch onSecondsToday].
  rewrite relay_meter_view, timerEndEpoch_meter_view, onSecondsToday_meter_view.
  now rewrite Hw.
Qed.

Lemma stays_on envs : forall l,
  relay l = true -> timerEndEpoch l = 0 ->
  0 <= onSecondsToday l ->
  onSecondsToday l + Z.of_nat (length envs) < usageLimitSeconds l ->
  usageLimitSeconds l <= C.ULONG_MAX ->
  relay (run_view envs l) = true
  /\ timerEndEpoch (run_view envs l) = 0
  /\ onSecondsToday (run_view envs l) = onSecondsToday l + Z.of_nat (length envs)
  /\ usageLimitSeconds (run_view envs l) = usageLimitSeconds l.
Proof.
  induction envs as [|env envs IH]; intros l Hr Ht H0 Hlt Hmax.
  - cbn. repeat split; try assumption. lia.
  - cbn [length] in Hlt.
    destruct (channel_view_counts env l) as (Hr' & Ht' & Hs'); try assumption; [lia|].
    pose proof (usageLimitSeconds_channel_view env b pr i l) as Hu.
    cbn [fold_left].
    destruct (IH (channel_view env b pr i l)) as (H1 & H2 & H3 & H4);
      try assumption; try (rewrite ?Hu, ?Hs'; lia).
    repeat split; try assumption.
    + rewrite H3, Hs'. cbn [length]. lia.
    + now rewrite H4.
Qed.

(** A pass on a channel that is on either switches it off or counts one
    second towards the limit. *)
Lemma channel_view_progress env l :
  relay l = true ->
  0 <= onSecondsToday l < usageLimitSeconds l ->
  usageLimitSeconds l <= C.ULONG_MAX ->
  relay (channel_view env b pr i l) = false
  \/ (relay (channel_view env b pr i l) = true
      /\ onSecondsToday (channel_view env b pr i l) = onSecondsToday l + 1
      /\ onSecondsToday l + 1 < usageLimitSeconds l).
Proof.
  intros Hr Hs Hmax.
  assert (C.to_ulong (onSecondsToday l + 1) = onSecondsToday l + 1) as Hw
    by (unfold C.to_ulong, C.ULONG_MAX in *; apply Z.mod_small; lia).
  destruct (limit_trips (tick_seconds l)) eqn:Htrip.
  - left. now apply channel_view_limit_trip.
  - assert (onSecondsToday l + 1 < usageLimitSeconds l) as Hlt.
    { unfold limit_trips, tick_seconds in Htrip.
      cbn [with_onSecondsToday usageLimitSeconds onSecondsToday] in Htrip.
      rewrite Hw in Htrip. apply andb_false_iff in Htrip as [H|H].
      - apply Z.ltb_ge in H. lia.
      - apply Z.leb_gt in H. lia. }
    assert (limit_view (meter_view env b pr i l)
            = tick_seconds (meter_view env b pr i l)) as Hlv.
    { unfold limit_view.
      now rewrite relay_meter_view, Hr, limit_trips_meter_view, Htrip. }
    unfold channel_view, timer_view. rewrite Hlv.
    destruct (timer_due _ _); [now left|right].
    unfold tick_seconds. cbn [with_onSecondsToday relay onSecondsToday].
    rewrite relay_meter_view, onSecondsToday_meter_view, Hw.
    repeat split; assumption.
Qed.

Lemma off_by_limit envs : forall l,
  usageLimitSeconds l <= C.ULONG_MAX ->
  relay l = false
  \/ (0 <= onSecondsToday l < usageLimitSeconds l
      /\ usageLimitSeconds l - onSecondsToday l <= Z.of_nat (length envs)) ->
  relay (run_view envs l) = false.
Proof.
  induction envs as [|env envs IH]; intros l Hmax Hcase.
  - destruct Hcase as [Hoff|[Hs Hn]]; [exact Hoff|]. cbn [length] in Hn. lia.
  - cbn [fold_left].
    pose proof (usageLimitSeconds_channel_view env b pr i l) as Hu.
    apply IH; [now rewrite Hu|]. rewrite Hu.
    destruct Hcase as [Hoff|[Hs Hn]].
    + left. now apply relay_channel_view_off.
    + destruct (relay l) eqn:Hr; [|left; now apply relay_channel_view_off].
      destruct (channel_view_progress env l Hr Hs Hmax) as [Hoff|(Hon & Hsec & Hlt)];
        [now left|right].
      rewrite Hsec. cbn [length] in Hn. lia.
Qed.

End LeftOn.

Lemma chan_of_nat (i : nat) : chan (Z.of_nat i + 1) = i.
Proof. unfold chan. lia. Qed.

(** A channel that is off with no second counted, then switched on and
    left to the limit [lim]. *)
Lemma left_on_switches_off st i lim now doc envs env :
  wf st -> (i < 4)%nat ->
  onSecondsToday (L st !!! i) = 0 ->
  usageLimitSeconds (L st !!! i) = lim -> lim <= C.ULONG_MAX ->
  Json.get doc "cmd" = JStr "relay" ->
  Json.get doc "id" = JInt (Z.of_nat i + 1) ->
  Json.get doc "state" = JBool true ->
  Z.of_nat (length envs) = lim - 1 ->
  let st_on := handleWS now WStype_TEXT (Some doc) st in
  let s := ticks envs st_on in
  let s' := tick env s in
  relay (L st_on !!! i) = true
  /\ relay (L s' !!! i) = false
  /\ (timerEndEpoch (L st_on !!! i) = 0 ->
      (forall k, (k <= length envs)%nat ->
         relay (L (ticks (take k envs) st_on) !!! i) = true
         /\ onSecondsToday (L (ticks (take k envs) st_on) !!! i) = Z.of_nat k)
      /\ notified (limit_text i) s s').
Proof.
  intros Hwf Hi Hsec0 Hlim0 Hmax Hc Hid Hstate Hlen.
  set (st_on := handleWS now WStype_TEXT (Some doc) st).
  assert (wf st_on) as Hwf_on.
  { subst st_on. rewrite handleWS_relay by exact Hc. now apply wf_cmd_relay. }
  assert (exists d, L st_on !!! i = with_timerEndEpoch d (with_relay true (L st !!! i)))
    as [d Hl].
  { eexists. subst st_on. rewrite handleWS_relay by exact Hc.
    rewrite <- (chan_of_nat i) at 1 2.
    apply cmd_relay_lookup; try assumption.
    - rewrite Hid. apply or_int_JInt, fits_int_small.
      unfold C.INT_MIN, C.INT_MAX. lia.
    - now rewrite Hstate.
    - lia. }
  assert (relay (L st_on !!! i) = true /\ onSecondsToday (L st_on !!! i) = 0
          /\ usageLimitSeconds (L st_on !!! i) = lim) as (Hon & Hsec & Hlim).
  { rewrite Hl.
    cbn [with_timerEndEpoch with_relay relay onSecondsToday usageLimitSeconds].
    split; [reflexivity|]. split; assumption. }
  clearbody st_on. cbn zeta.
  split; [exact Hon|]. split.
  - change (tick env (ticks envs st_on)) with (ticks [env] (ticks envs st_on)).
    rewrite <- ticks_app, lookup_ticks by assumption.
    apply off_by_limit; [now rewrite Hlim|]. right.
    rewrite Hlim, Hsec, length_app. cbn [length]. lia.
  - intros Htimer.
    assert (forall k, (k <= length envs)%nat ->
              let l := L (ticks (take k envs) st_on) !!! i in
              relay l = true /\ timerEndEpoch l = 0
              /\ onSecondsToday l = Z.of_nat k /\ usageLimitSeconds l = lim)
      as Hprefix.
    { intros k Hk. cbn zeta. rewrite lookup_ticks by assumption.
      destruct (stays_on (inaPresent st_on !!! i) (unitPrice st_on) i
                  (take k envs) (L st_on !!! i)) as (H1 & H2 & H3 & H4);
        rewrite ?Hlim, ?Hsec, ?length_take; try assumption; try lia.
      rewrite H3, H4, Hsec, Hlim, length_take.
      split; [assumption|]. split; [assumption|]. split; [lia|reflexivity]. }
    split.
    + intros k Hk. destruct (Hprefix k Hk) as (H1 & _ & H3 & _). now split.
    + destruct (Hprefix (length envs) (le_n _)) as (H1 & H2 & H3 & H4).
      rewrite firstn_all in H1, H2, H3, H4.
      set (s := ticks envs st_on) in *.
      assert (wf s) as Hwfs by (subst s; now apply wf_ticks).
      assert (limit_trips (tick_seconds (L s !!! i)) = true) as Htrip.
      { unfold limit_trips, tick_seconds.
        cbn [with_onSecondsToday usageLimitSeconds onSecondsToday].
        rewrite H3, H4, Hlen. replace (lim - 1 + 1) with lim by lia.
        unfold C.to_ulong. rewrite Z.mod_small by (unfold C.ULONG_MAX in Hmax; lia).
        apply andb_true_iff. split; [apply Z.ltb_lt | apply Z.leb_le]; lia. }
      clearbody s.
      destruct (channel_view_limit_trip env (inaPresent s !!! i) (unitPrice s) i
                  _ H1 Htrip) as (_ & _ & Hmsg).
      now apply (produced_tick env s i).
Qed.

(** The boot state of a channel without a persisted limit. *)
Lemma setup_channel files mount_ok ina_begin i :
  (i < 4)%nat ->
  persisted_entry mount_ok files i ≫= limitSec = None ->
  onSecondsToday (L (setup mount_ok ina_begin (power_on files)) !!! i) = 0
  /\ usageLimitSeconds (L (setup mount_ok ina_begin (power_on files)) !!! i) = 43200.
Proof.
  intros Hi Hnone. rewrite lookup_setup by exact Hi.
  destruct (persisted_entry mount_ok files i) as [e|];
    [|split; reflexivity].
  cbn in Hnone.
  destruct (load_entry_fields e Load_default) as (_ & Hs & _ & Hu).
  rewrite Hs, Hu, Hnone. split; reflexivity.
Qed.

Lemma power_on_limit files i :
  (i < 4)%nat -> usageLimitSeconds (L (power_on files) !!! i) = 43200.
Proof.
  intros Hi. unfold power_on. cbn [L].
  now rewrite lookup_total_replicate_2.
Qed.

(** C10: the member initialiser gives every channel the limit 43200, and
    [setup] keeps it unless the persisted document has a [limitSec] for the
    channel.  A channel then switched on is off after the 43200th pass at
    the latest; when no timer is armed it stays on through the first 43199
    passes, counting one second each, and the 43200th pass switches it off
    by the limit. *)
Theorem default_limit_switches_off files mount_ok ina_begin i :
  (i < 4)%nat ->
  persisted_entry mount_ok files i ≫= limitSec = None ->
  let st := setup mount_ok ina_begin (power_on files) in
  usageLimitSeconds (L (power_on files) !!! i) = 43200
  /\ usageLimitSeconds (L st !!! i) = 43200
  /\ forall now doc envs env,
       Json.get doc "cmd" = JStr "relay" ->
       Json.get doc "id" = JInt (Z.of_nat i + 1) ->
       Json.get doc "state" = JBool true ->
       Z.of_nat (length envs) = 43199 ->
       let st_on := handleWS now WStype_TEXT (Some doc) st in
       let s := ticks envs st_on in
       let s' := tick env s in
       relay (L st_on !!! i) = true
       /\ relay (L s' !!! i) = false
       /\ (timerEndEpoch (L st_on !!! i) = 0 ->
           (forall k, (k <= length envs)%nat ->
              relay (L (ticks (take k envs) st_on) !!! i) = true
              /\ onSecondsToday (L (ticks (take k envs) st_on) !!! i) = Z.of_nat k)
           /\ notified (limit_text i) s s').
Proof.
  intros Hi Hnone st.
  destruct (setup_channel files mount_ok ina_begin i Hi Hnone) as [Hsec Hlim].
  pose proof (wf_setup mount_ok ina_begin files) as Hwf.
  fold st in Hsec, Hlim, Hwf. clearbody st.
  split; [now apply power_on_limit|]. split; [exact Hlim|].
  intros now doc envs env Hc Hid Hstate Hlen.
  apply (left_on_switches_off st i 43200); try assumption.
  unfold C.ULONG_MAX. lia.
Qed.

Lemma default_limit_switches_off_witness :
  usageLimitSeconds (L (power_on no_files) !!! 2%nat) = 43200
  /\ usageLimitSeconds (L booted !!! 2%nat) = 43200.
Proof.
  destruct (default_limit_switches_off no_files true (fun _ => true) 2)
    as (Hinit & Hboot & _); [lia | reflexivity |].
  split; [exact Hinit | exact Hboot].
Defined.

(** ** Commands: what they write and what they leave *)

Section CommandFrame.

Implicit Types (st : State) (doc : JValue) (now id : Z) (i j : nat).

Lemma wf_handleWS now type payload st :
  wf st -> wf (handleWS now type payload st).
Proof.
  unfold wf, handleWS, cmd_relay, cmd_setTimer, cmd_setLimit, cmd_setPrice,
    cmd_clearNotifs.
  intros Hwf. repeat case_match; autorewrite with frame; exact Hwf.
Qed.

Lemma emitted_saveSettingsToFS st :
  emitted (saveSettingsToFS st)
  = emitted st
    ++ (if mounted (fs st) then [SettingsWrite (settings_of st)] else []).
Proof.
  unfold saveSettingsToFS. destruct (mounted (fs st)); [reflexivity|].
  now rewrite app_nil_r.
Qed.

Lemma handleWS_setTimer now doc st :
  Json.get doc "cmd" = JStr "setTimer" ->
  handleWS now WStype_TEXT (Some doc) st = cmd_setTimer now doc st.
Proof. intros Hc. unfold handleWS. now rewrite Hc. Qed.

(** Saving leaves the file equal to the configuration in memory. *)
Lemma in_sync_saveSettingsToFS st :
  mounted (fs st) = true -> in_sync (saveSettingsToFS st).
Proof.
  intros Hm. unfold in_sync, saveSettingsToFS. rewrite Hm. reflexivity.
Qed.

Lemma settings_of_upd i (f : Load -> Load) st :
  (forall l, usageLimitSeconds (f l) = usageLimitSeconds l) ->
  (forall l, timerMinutes (f l) = timerMinutes l) ->
  settings_of (upd i f st) = settings_of st.
Proof.
  intros Hu Ht. unfold settings_of. f_equal. f_equal.
  change (L (upd i f st)) with (alter f i (L st)).
  rewrite take_alter. case_match; [|reflexivity].
  apply list_eq. intros k.
  change (map ?g ?l) with (g <$> l).
  rewrite !list_lookup_fmap, list_lookup_alter.
  case_match; [subst k|reflexivity].
  destruct (take 4 (L st) !! i) as [x|]; [|reflexivity].
  cbn. now rewrite Hu, Ht.
Qed.

End CommandFrame.

Section CommandEffects.

Implicit Types (st : State) (doc : JValue) (now id : Z) (i j : nat).

Lemma fs_upd i (f : Load -> Load) st : fs (upd i f st) = fs st.
Proof. reflexivity. Qed.

Lemma unitPrice_upd i (f : Load -> Load) st : unitPrice (upd i f st) = unitPrice st.
Proof. reflexivity. Qed.

Lemma emitted_upd i (f : Load -> Load) st : emitted (upd i f st) = emitted st.
Proof. reflexivity. Qed.

Lemma settings_of_saveSettingsToFS st :
  settings_of (saveSettingsToFS st) = settings_of st.
Proof.
  unfold saveSettingsToFS. destruct (mounted (fs st)); reflexivity.
Qed.

(** The record an accepted [setTimer] leaves in its channel's slot. *)
Lemma cmd_setTimer_lookup now doc st id m :
  wf st ->
  Json.or_int (Json.get doc "id") 1 = id ->
  Json.or_int (Json.get doc "minutes") 0 = m ->
  1 <= id <= 4 ->
  L (cmd_setTimer now doc st) !!! chan id
  = with_timerEndEpoch
      (if relay (L st !!! chan id) && (0 <? m) then deadline now m else 0)
      (with_timerMinutes m (L st !!! chan id)).
Proof.
  unfold wf. intros Hwf Hid Hm Hr.
  assert (chan id < length (L st))%nat as Hi by (rewrite Hwf; now apply chan_lt).
  unfold cmd_setTimer. rewrite Hid, Hm.
  rewrite (proj2 (valid_id_range id) Hr).
  rewrite L_saveSettingsToFS.
  rewrite (lookup_upd_eq (chan id) (with_timerMinutes m) st Hi).
  change (relay (with_timerMinutes m (L st !!! chan id)))
    with (relay (L st !!! chan id)).
  destruct (relay (L st !!! chan id) && (0 <? m));
    rewrite lookup_upd_eq by (now rewrite length_upd);
    now rewrite lookup_upd_eq.
Qed.

End CommandEffects.

(** The channel's record after an accepted [setTimer]. *)
Lemma setTimer_fields st now doc id m :
  wf st ->
  Json.get doc "cmd" = JStr "setTimer" ->
  Json.or_int (Json.get doc "id") 1 = id -> 1 <= id <= 4 ->
  Json.or_int (Json.get doc "minutes") 0 = m ->
  0 <= now -> m * 60 <= C.INT_MAX -> now + m * 60 <= C.ULONG_MAX ->
  let l := L st !!! chan id in
  let l' := L (handleWS now WStype_TEXT (Some doc) st) !!! chan id in
  relay l' = relay l
  /\ usageLimitSeconds l' = usageLimitSeconds l
  /\ onSecondsToday l' = onSecondsToday l
  /\ timerEndEpoch l' = (if relay l && (0 <? m) then now + m * 60 else 0).
Proof.
  intros Hwf Hc Hid Hr Hm Hnow Hint Hul. cbn zeta.
  rewrite handleWS_setTimer by exact Hc.
  rewrite (cmd_setTimer_lookup now doc st id m) by assumption.
  cbn [with_timerEndEpoch with_timerMinutes timerMinutes relay usageLimitSeconds
       onSecondsToday timerEndEpoch].
  split; [reflexivity|]. split; [reflexivity|]. split; [reflexivity|].
  destruct (relay (L st !!! chan id)); [|reflexivity]. cbn [andb].
  destruct (0 <? m) eqn:Hpos; [|reflexivity].
  apply Z.ltb_lt in Hpos. apply deadline_exact; lia.
Qed.

(** X1: an accepted [setTimer] stores the minutes (missing or mistyped:
    0), keeps the relay and the usage limit, arms the deadline
    [now + minutes*60] when the relay is on and the minutes are positive and
    clears it otherwise, and on a mounted partition leaves the settings file
    equal to the configuration in memory. *)
Theorem setTimer_effect st now doc id m :
  wf st ->
  Json.get doc "cmd" = JStr "setTimer" ->
  Json.or_int (Json.get doc "id") 1 = id -> 1 <= id <= 4 ->
  Json.or_int (Json.get doc "minutes") 0 = m ->
  0 <= now -> m * 60 <= C.INT_MAX -> now + m * 60 <= C.ULONG_MAX ->
  let l := L st !!! chan id in
  let st' := handleWS now WStype_TEXT (Some doc) st in
  let l' := L st' !!! chan id in
  timerMinutes l' = m
  /\ relay l' = relay l
  /\ usageLimitSeconds l' = usageLimitSeconds l
  /\ onSecondsToday l' = onSecondsToday l
  /\ timerEndEpoch l' = (if relay l && (0 <? m) then now + m * 60 else 0)
  /\ (mounted (fs st) = true -> in_sync st').
Proof.
  intros Hwf Hc Hid Hr Hm Hnow Hint Hul. cbn zeta.
  rewrite handleWS_setTimer by exact Hc.
  rewrite (cmd_setTimer_lookup now doc st id m) by assumption.
  cbn [with_timerEndEpoch with_timerMinutes timerMinutes relay usageLimitSeconds
       onSecondsToday timerEndEpoch].
  split; [reflexivity|]. split; [reflexivity|]. split; [reflexivity|].
  split; [reflexivity|]. split.
  - destruct (relay (L st !!! chan id)); [|reflexivity]. cbn [andb].
    destruct (0 <? m) eqn:Hpos; [|reflexivity].
    apply Z.ltb_lt in Hpos. apply deadline_exact; lia.
  - intros Hmount. unfold cmd_setTimer. rewrite Hid.
    rewrite (proj2 (valid_id_range id) Hr).
    apply in_sync_saveSettingsToFS.
    now case_match.
Qed.

Lemma setTimer_effect_witness :
  let doc := JObj [("cmd", JStr "setTimer"); ("id", JInt 2); ("minutes", JInt 15)] in
  let st := upd 1 (with_relay true) booted in
  let st' := handleWS 1700000000 WStype_TEXT (Some doc) st in
  timerMinutes (L st' !!! 1%nat) = 15
  /\ timerEndEpoch (L st' !!! 1%nat) = 1700000900.
Proof.
  intros doc st st'.
  destruct (setTimer_effect st 1700000000 doc 2 15)
    as (Hm & _ & _ & _ & Hd & _);
    try reflexivity; try (unfold C.INT_MAX, C.ULONG_MAX; lia).
  split; [exact Hm | exact Hd].
Defined.

(** X2: an accepted [setLimit] (seconds from 1 to [INT_MAX]) stores the
    limit, leaves relay, deadline, timer minutes and counted seconds alone,
    and on a mounted partition leaves the settings file equal to the
    configuration in memory. *)
Theorem setLimit_effect st now doc id s :
  wf st ->
  Json.get doc "cmd" = JStr "setLimit" ->
  Json.or_int (Json.get doc "id") 1 = id -> 1 <= id <= 4 ->
  Json.or_int (Json.get doc "seconds") 0 = s -> 0 < s ->
  let st' := handleWS now WStype_TEXT (Some doc) st in
  L st' !!! chan id = with_usageLimitSeconds s (L st !!! chan id)
  /\ (mounted (fs st) = true -> in_sync st').
Proof.
  intros Hwf Hc Hid Hr Hs Hpos. cbn zeta.
  rewrite handleWS_setLimit by exact Hc.
  assert (s <= C.INT_MAX) as Hmax.
  { subst s. unfold Json.or_int. destruct (Json.get doc "seconds"); try (unfold C.INT_MAX; lia).
    destruct (C.fits_int z) eqn:Hf; [|unfold C.INT_MAX; lia].
    unfold C.fits_int in Hf. apply andb_true_iff in Hf as [_ Hf].
    now apply Z.leb_le in Hf. }
  split.
  - apply cmd_setLimit_lookup; try assumption.
    unfold C.INT_MAX, C.ULONG_MAX in *. lia.
  - intros Hmount. unfold cmd_setLimit. rewrite Hid, Hs.
    rewrite (proj2 (valid_id_range id) Hr).
    assert (C.to_ulong s = s) as ->
      by (unfold C.to_ulong, C.INT_MAX in *; apply Z.mod_small; lia).
    rewrite (proj2 (Z.ltb_lt 0 s) Hpos). cbn [andb].
    now apply in_sync_saveSettingsToFS.
Qed.

Lemma setLimit_effect_witness :
  let doc := JObj [("cmd", JStr "setLimit"); ("id", JInt 4); ("seconds", JInt 60)] in
  L (handleWS 1700000000 WStype_TEXT (Some doc) booted) !!! 3%nat
  = with_usageLimitSeconds 60 (L booted !!! 3%nat).
Proof.
  intros doc.
  refine (proj1 (setLimit_effect booted 1700000000 doc 4 60
                   eq_refl eq_refl eq_refl _ eq_refl _)); lia.
Defined.

(** X3: [seconds] is read as an [int] and stored in an [unsigned long]: a
    negative value passes the [s>0] test after the conversion, and the
    channel gets the limit 2^32 + seconds. *)
Theorem setLimit_negative_wraps st now doc id n :
  wf st ->
  Json.get doc "cmd" = JStr "setLimit" ->
  Json.or_int (Json.get doc "id") 1 = id -> 1 <= id <= 4 ->
  Json.get doc "seconds" = JInt n -> C.INT_MIN <= n < 0 ->
  usageLimitSeconds (L (handleWS now WStype_TEXT (Some doc) st) !!! chan id)
  = 2 ^ 32 + n.
Proof.
  unfold wf. intros Hwf Hc Hid Hr Hs Hn.
  assert (chan id < length (L st))%nat as Hi by (rewrite Hwf; now apply chan_lt).
  rewrite handleWS_setLimit by exact Hc.
  unfold cmd_setLimit. rewrite Hid, Hs.
  rewrite or_int_JInt
    by (apply fits_int_small; unfold C.INT_MIN, C.INT_MAX in *; lia).
  assert (C.to_ulong n = 2 ^ 32 + n) as ->.
  { unfold C.to_ulong, C.INT_MIN in *.
    rewrite <- (Z.mod_small (2 ^ 32 + n) (2 ^ 32)) by lia.
    rewrite <- (Z.mod_add n 1 (2 ^ 32)) by lia. f_equal. lia. }
  rewrite (proj2 (valid_id_range id) Hr).
  assert ((0 <? 2 ^ 32 + n) = true) as ->
    by (apply Z.ltb_lt; unfold C.INT_MIN in *; lia).
  cbn [andb]. rewrite L_saveSettingsToFS, lookup_upd_eq by exact Hi.
  reflexivity.
Qed.

Lemma setLimit_negative_wraps_witness :
  let doc := JObj [("cmd", JStr "setLimit"); ("id", JInt 1); ("seconds", JInt (-5))] in
  usageLimitSeconds (L (handleWS 1700000000 WStype_TEXT (Some doc) booted) !!! 0%nat)
  = 4294967291.
Proof.
  intros doc.
  refine (setLimit_negative_wraps booted 1700000000 doc 1 (-5)
            eq_refl eq_refl eq_refl _ eq_refl _);
    unfold C.INT_MIN; lia.
Defined.

(** X4: a relay command (missing id: channel 1, missing state: off) sends
    exactly two things, in this order: the level on the channel's pin and
    the notification "Relay <id> ON" or "Relay <id> OFF". *)
Theorem relay_command_output st now doc id b :
  Json.get doc "cmd" = JStr "relay" ->
  Json.or_int (Json.get doc "id") 1 = id -> 1 <= id <= 4 ->
  Json.or_bool (Json.get doc "state") false = b ->
  produced st (handleWS now WStype_TEXT (Some doc) st)
  = [DigitalWrite (RELAY_PINS !!! chan id) b;
     BroadcastTXT
       (MsgNotification ("Relay " +:+ pretty id +:+ (if b then " ON" else " OFF")))].
Proof.
  intros Hc Hid Hr Hb. apply produced_app.
  rewrite handleWS_relay by exact Hc.
  unfold cmd_relay. rewrite Hid, Hb, (proj2 (valid_id_range id) Hr).
  rewrite emitted_pushNotification.
  assert (forall x : bool, (if x then RELAY_ON else RELAY_OFF) = x) as Hlv
    by (now intros []).
  rewrite Hlv.
  case_match; cbn [upd set_L digitalWrite emit emitted];
    now rewrite <- app_assoc.
Qed.

Lemma relay_command_output_witness :
  produced booted
    (handleWS 1700000000 WStype_TEXT (Some (JObj [("cmd", JStr "relay")])) booted)
  = [DigitalWrite 16 false; BroadcastTXT (MsgNotification "Relay 1 OFF")].
Proof.
  refine (relay_command_output booted 1700000000 (JObj [("cmd", JStr "relay")])
            1 false eq_refl eq_refl _ eq_refl).
  lia.
Defined.

(** X5: a command never writes what the pass measures or counts: voltage,
    current, power, energy, cost and counted seconds of every channel stay;
    and a channel other than the one the command names keeps its whole
    record. *)
Theorem command_frame st now type payload :
  (forall j,
     let l := L st !!! j in
     let l' := L (handleWS now type payload st) !!! j in
     V l' = V l /\ I l' = I l /\ P l' = P l /\ Wh l' = Wh l /\ cost l' = cost l
     /\ onSecondsToday l' = onSecondsToday l)
  /\ (forall doc j,
        payload = Some doc ->
        j <> chan (Json.or_int (Json.get doc "id") 1) ->
        L (handleWS now type payload st) !!! j = L st !!! j).
Proof.
  split.
  - intros j. cbn zeta.
    unfold handleWS, cmd_relay, cmd_setTimer, cmd_setLimit, cmd_setPrice,
      cmd_clearNotifs.
    repeat case_match; autorewrite with frame;
      try (repeat split; reflexivity);
      rewrite ?L_upd;
      repeat split; repeat (rewrite lookup_alter_keeps by reflexivity); reflexivity.
  - intros doc j -> Hj.
    unfold handleWS, cmd_relay, cmd_setTimer, cmd_setLimit, cmd_setPrice,
      cmd_clearNotifs.
    repeat case_match; autorewrite with frame; try reflexivity;
      rewrite ?L_upd;
      repeat (rewrite list_lookup_total_alter_ne by congruence); reflexivity.
Qed.

(** ** The pass: gate, readings, counters *)

(** X6: after a pass, [loop] waits for a full second on the [millis]
    clock, also across the clock's wrap-around at 2^32: called [d]
    milliseconds later it does nothing when [d < 1000] and runs the next
    pass otherwise. *)
Theorem loop_waits_a_second env env' st d :
  0 <= millis env <= C.ULONG_MAX ->
  0 <= d <= C.ULONG_MAX ->
  millis env' = C.to_ulong (millis env + d) ->
  loop env' (tick env st)
  = if d <? 1000 then tick env st else tick env' (tick env st).
Proof.
  intros Hm Hd Hm'. unfold loop. rewrite lastSec_tick, Hm'.
  unfold C.to_ulong, C.ULONG_MAX in *.
  rewrite Zminus_mod_idemp_l.
  replace (millis env + d - millis env) with d by lia.
  now rewrite Z.mod_small by lia.
Qed.

Lemma loop_waits_a_second_witness :
  let late := mkLoopEnv 4294967000 1700000000 (fun _ => reading_1W) in
  let wrapped := mkLoopEnv 500 1700000001 (fun _ => reading_1W) in
  loop wrapped (tick late booted) = tick late booted.
Proof.
  intros late wrapped.
  refine (loop_waits_a_second late wrapped booted 796 _ _ eq_refl);
    unfold C.ULONG_MAX; cbn; lia.
Defined.





Lemma fold_absent_views (pr : spec_float) (i : nat) (envs : list LoopEnv) :
  forall l,
    let l' := fold_left (fun l env => channel_view env false pr i l) envs l in
    Wh l' = Wh l /\ cost l' = cost l
    /\ (envs <> [] ->
        V l' = S754_zero false /\ I l' = S754_zero false
        /\ P l' = S754_zero false).
Proof.
  induction envs as [|env envs IH]; intros l; cbn zeta.
  - split; [reflexivity|]. split; [reflexivity|]. intros Hne. now contradiction Hne.
  - cbn [fold_left].
    destruct (IH (channel_view env false pr i l)) as (Hw & Hc & Hz).
    rewrite Hw, Hc, Wh_channel_view_absent, cost_channel_view_absent.
    split; [reflexivity|]. split; [reflexivity|]. intros _.
    destruct envs as [|env' envs']; [|apply Hz; discriminate].
    cbn [fold_left].
    unfold channel_view, timer_view, limit_view, meter_view, tick_seconds.
    repeat case_match; repeat split; reflexivity.
Qed.

(** X8: a channel whose sensor was not found at boot never accumulates:
    over any number of passes its energy and cost stay, and after the first
    pass it reads 0 V, 0 A, 0 W. *)
Theorem absent_sensor_never_accumulates st i envs :
  wf st -> (i < 4)%nat ->
  inaPresent st !!! i = false ->
  let l := L st !!! i in
  let l' := L (ticks envs st) !!! i in
  Wh l' = Wh l /\ cost l' = cost l
  /\ (envs <> [] ->
      V l' = S754_zero false /\ I l' = S754_zero false /\ P l' = S754_zero false).
Proof.
  intros Hwf Hi Hina. cbn zeta.
  rewrite lookup_ticks, Hina by assumption.
  apply fold_absent_views.
Qed.

Lemma absent_sensor_never_accumulates_witness :
  let st := setup true (fun _ => false) (power_on no_files) in
  Wh (L (ticks (seconds 1 3) st) !!! 1%nat) = S754_zero false.
Proof.
  intros st.
  refine (proj1 (absent_sensor_never_accumulates st 1 (seconds 1 3)
                   eq_refl _ eq_refl)).
  lia.
Defined.

Lemma onSecondsToday_channel_view env b pr i l :
  onSecondsToday (channel_view env b pr i l)
  = if relay l then C.to_ulong (onSecondsToday l + 1) else onSecondsToday l.
Proof.
  unfold channel_view, timer_view, limit_view.
  rewrite relay_meter_view.
  destruct (relay l);
    repeat case_match;
    cbn [with_timerEndEpoch with_relay tick_seconds with_onSecondsToday
         onSecondsToday];
    now rewrite onSecondsToday_meter_view.
Qed.

(** X9: a pass counts exactly one second (modulo 2^32) for a channel whose
    relay is on when the pass starts, the second in which a limit or timer
    switches it off included, and none for a channel that is off; no pass
    resets the counter. *)
Theorem pass_counts_on_seconds env st i :
  wf st -> (i < 4)%nat ->
  onSecondsToday (L (tick env st) !!! i)
  = if relay (L st !!! i)
    then C.to_ulong (onSecondsToday (L st !!! i) + 1)
    else onSecondsToday (L st !!! i).
Proof.
  intros Hwf Hi. rewrite lookup_tick by assumption.
  apply onSecondsToday_channel_view.
Qed.

Lemma pass_counts_on_seconds_witness :
  onSecondsToday (L (tick (second 1) booted) !!! 0%nat) = 0.
Proof.
  refine (pass_counts_on_seconds (second 1) booted 0 eq_refl _). lia.
Defined.

(** X10: every pass ends by publishing one state message; it carries the
    records as the pass leaves them, and for every channel with a sensor the
    published cost is (energy/1000.0)×unitPrice of the published energy and
    price, also when the price was changed since the pass before. *)
Theorem published_state_is_consistent env st :
  wf st ->
  last (emitted (tick env st))
  = Some (BroadcastTXT (MsgState (unitPrice (tick env st)) (L (tick env st))))
  /\ forall i, (i < 4)%nat -> inaPresent st !!! i = true ->
       cost (L (tick env st) !!! i)
       = cost_of (Wh (L (tick env st) !!! i)) (unitPrice (tick env st)).
Proof.
  intros Hwf. split.
  - pose proof (wf_tick env st Hwf) as Hwf'. unfold wf in Hwf'.
    rewrite tick_unfold in *. rewrite emitted_broadcastState, last_snoc.
    rewrite unitPrice_broadcastState, L_broadcastState in *.
    now rewrite firstn_all2 by lia.
  - intros i Hi Hina.
    rewrite lookup_tick, unitPrice_tick, Hina by assumption.
    apply cost_channel_view.
Qed.

Lemma published_state_is_consistent_witness :
  let st := handleWS 1700000001 WStype_TEXT
              (Some (JObj [("cmd", JStr "setPrice"); ("price", JInt 10)]))
              (tick (second 1) booted) in
  last (emitted (tick (second 2) st))
  = Some (BroadcastTXT (MsgState (unitPrice (tick (second 2) st))
                          (L (tick (second 2) st)))).
Proof.
  intros st.
  exact (proj1 (published_state_is_consistent (second 2) st eq_refl)).
Defined.

(** ** Runs of the device *)

Section Runs.

Implicit Types (st : State) (doc : JValue) (now id : Z) (i j : nat)
  (evs : list Event).

Lemma wf_loop env st : wf st -> wf (loop env st).
Proof. intros Hwf. unfold loop. case_match; [exact Hwf | now apply wf_tick]. Qed.

Lemma wf_step st e : wf st -> wf (step st e).
Proof. destruct e; [apply wf_handleWS | apply wf_loop]. Qed.

Lemma wf_run evs : forall st, wf st -> wf (run evs st).
Proof.
  induction evs as [|e evs IH]; intros st Hwf; [exact Hwf|].
  apply IH. now apply wf_step.
Qed.

(** *** The file system under commands and passes *)

Lemma mounted_pushNotification now s st :
  mounted (fs (pushNotification now s st)) = mounted (fs st).
Proof. unfold pushNotification. now destruct (mounted (fs st)) eqn:Hm. Qed.

Lemma settings_file_pushNotification now s st :
  settings_file (fs (pushNotification now s st)) = settings_file (fs st).
Proof. unfold pushNotification. now destruct (mounted (fs st)). Qed.

Lemma fs_pushNotification_unmounted now s st :
  mounted (fs st) = false -> fs (pushNotification now s st) = fs st.
Proof. intros Hm. unfold pushNotification. now rewrite Hm. Qed.

Lemma mounted_saveSettingsToFS st :
  mounted (fs (saveSettingsToFS st)) = mounted (fs st).
Proof. unfold saveSettingsToFS. now destruct (mounted (fs st)) eqn:Hm. Qed.

Lemma fs_saveSettingsToFS_unmounted st :
  mounted (fs st) = false -> fs (saveSettingsToFS st) = fs st.
Proof. intros Hm. unfold saveSettingsToFS. now rewrite Hm. Qed.

Lemma settings_of_pushNotification now s st :
  settings_of (pushNotification now s st) = settings_of st.
Proof.
  unfold settings_of.
  now rewrite L_pushNotification, unitPrice_pushNotification.
Qed.

Lemma same_config_refl st : same_config st st.
Proof. now split. Qed.

Lemma same_config_trans st1 st2 st3 :
  same_config st1 st2 -> same_config st2 st3 -> same_config st1 st3.
Proof. intros [A B C] [A' B' C']. split; congruence. Qed.

Lemma same_config_pushNotification now s st :
  same_config st (pushNotification now s st).
Proof.
  split; [apply mounted_pushNotification | apply settings_file_pushNotification
         | apply settings_of_pushNotification].
Qed.

Lemma same_config_upd i (f : Load -> Load) st :
  (forall l, usageLimitSeconds (f l) = usageLimitSeconds l) ->
  (forall l, timerMinutes (f l) = timerMinutes l) ->
  same_config st (upd i f st).
Proof. intros Hu Ht. split; [reflexivity | reflexivity | now apply settings_of_upd]. Qed.

Lemma same_config_emit e st : same_config st (emit e st).
Proof. now split. Qed.

Lemma same_config_set_lastSec t st : same_config st (set_lastSec t st).
Proof. now split. Qed.

Lemma same_config_meter_step env i st : same_config st (meter_step env i st).
Proof.
  rewrite meter_step_upd. apply same_config_upd; intros l;
    unfold meter_view; now case_match.
Qed.

Lemma same_config_limit_step env i st : same_config st (limit_step env i st).
Proof.
  unfold limit_step. repeat case_match; try apply same_config_refl.
  - eapply same_config_trans; [|apply same_config_pushNotification].
    eapply same_config_trans; [|now apply same_config_upd].
    eapply same_config_trans; [|apply same_config_emit].
    now apply same_config_upd.
  - now apply same_config_upd.
Qed.

Lemma same_config_timer_step env i st : same_config st (timer_step env i st).
Proof.
  unfold timer_step. case_match; [|apply same_config_refl].
  eapply same_config_trans; [|apply same_config_pushNotification].
  eapply same_config_trans; [|now apply same_config_upd].
  eapply same_config_trans; [|now apply same_config_upd].
  apply same_config_emit.
Qed.

Lemma same_config_channel_step env i st : same_config st (channel_step env i st).
Proof.
  unfold channel_step.
  eapply same_config_trans; [apply same_config_meter_step|].
  eapply same_config_trans; [apply same_config_limit_step|].
  apply same_config_timer_step.
Qed.

Lemma same_config_tick env st : same_config st (tick env st).
Proof.
  rewrite tick_unfold.
  eapply same_config_trans; [apply same_config_set_lastSec|].
  do 4 (eapply same_config_trans; [apply same_config_channel_step|]).
  apply same_config_emit.
Qed.

Lemma same_config_loop env st : same_config st (loop env st).
Proof.
  unfold loop. case_match; [apply same_config_refl | apply same_config_tick].
Qed.

Lemma in_sync_same_config st st' : same_config st st' -> in_sync st -> in_sync st'.
Proof. intros [_ Hf Hs]. unfold in_sync. now rewrite Hf, Hs. Qed.

Lemma same_config_cmd_relay now doc st : same_config st (cmd_relay now doc st).
Proof.
  unfold cmd_relay. case_match; [|apply same_config_refl].
  eapply same_config_trans; [|apply same_config_pushNotification].
  case_match;
    (eapply same_config_trans; [|now apply same_config_upd]);
    (eapply same_config_trans; [|now apply same_config_upd]);
    apply same_config_emit.
Qed.

Lemma same_config_cmd_clearNotifs now st : same_config st (cmd_clearNotifs now st).
Proof.
  unfold cmd_clearNotifs.
  eapply same_config_trans; [|apply same_config_pushNotification].
  case_match; now split.
Qed.

Lemma in_sync_handleWS now type payload st :
  mounted (fs st) = true -> in_sync st -> in_sync (handleWS now type payload st).
Proof.
  intros Hm Hs. unfold handleWS.
  repeat case_match; try exact Hs.
  - exact (in_sync_same_config _ _ (same_config_cmd_relay now _ st) Hs).
  - unfold cmd_setTimer. case_match; [|exact Hs].
    apply in_sync_saveSettingsToFS. now case_match.
  - unfold cmd_setLimit. case_match; [|exact Hs].
    now apply in_sync_saveSettingsToFS.
  - now apply in_sync_saveSettingsToFS.
  - exact (in_sync_same_config _ _ (same_config_cmd_clearNotifs now st) Hs).
Qed.

Lemma mounted_handleWS now type payload st :
  mounted (fs (handleWS now type payload st)) = mounted (fs st).
Proof.
  unfold handleWS, cmd_relay, cmd_setTimer, cmd_setLimit, cmd_setPrice,
    cmd_clearNotifs.
  repeat case_match;
    rewrite ?mounted_pushNotification, ?mounted_saveSettingsToFS;
    first [reflexivity | assumption].
Qed.

Lemma mounted_step st e : mounted (fs (step st e)) = mounted (fs st).
Proof.
  destruct e; [apply mounted_handleWS | apply (sc_mounted _ _ (same_config_loop _ _))].
Qed.

(** *** Without a mounted partition *)

Lemma fs_limit_step_unmounted env i st :
  mounted (fs st) = false -> fs (limit_step env i st) = fs st.
Proof.
  intros Hm. unfold limit_step. repeat case_match; try reflexivity.
  now rewrite fs_pushNotification_unmounted.
Qed.

Lemma fs_timer_step_unmounted env i st :
  mounted (fs st) = false -> fs (timer_step env i st) = fs st.
Proof.
  intros Hm. unfold timer_step. case_match; [|reflexivity].
  now rewrite fs_pushNotification_unmounted.
Qed.

Lemma fs_channel_step_unmounted env i st :
  mounted (fs st) = false -> fs (channel_step env i st) = fs st.
Proof.
  intros Hm. unfold channel_step.
  assert (fs (meter_step env i st) = fs st) as H1 by now rewrite meter_step_upd.
  assert (fs (limit_step env i (meter_step env i st)) = fs st) as H2
    by (rewrite fs_limit_step_unmounted; congruence).
  rewrite fs_timer_step_unmounted; congruence.
Qed.

Lemma fs_broadcastState st : fs (broadcastState st) = fs st.
Proof. reflexivity. Qed.

Lemma fs_tick_unmounted env st :
  mounted (fs st) = false -> fs (tick env st) = fs st.
Proof.
  intros Hm. rewrite tick_unfold, fs_broadcastState.
  set (s0 := set_lastSec (millis env) st).
  assert (fs s0 = fs st) as H0 by reflexivity. clearbody s0.
  assert (fs (channel_step env 0 s0) = fs st) as H1
    by (rewrite fs_channel_step_unmounted; congruence).
  assert (fs (channel_step env 1 (channel_step env 0 s0)) = fs st) as H2
    by (rewrite fs_channel_step_unmounted; congruence).
  assert (fs (channel_step env 2 (channel_step env 1 (channel_step env 0 s0)))
          = fs st) as H3
    by (rewrite fs_channel_step_unmounted; congruence).
  rewrite fs_channel_step_unmounted; congruence.
Qed.

Lemma fs_handleWS_unmounted now type payload st :
  mounted (fs st) = false -> fs (handleWS now type payload st) = fs st.
Proof.
  intros Hm.
  unfold handleWS, cmd_relay, cmd_setTimer, cmd_setLimit, cmd_setPrice,
    cmd_clearNotifs.
  rewrite Hm.
  repeat case_match;
    rewrite ?fs_pushNotification_unmounted, ?fs_saveSettingsToFS_unmounted;
    try reflexivity; try exact Hm.
Qed.

End Runs.

(** X11: once the settings file equals the configuration in memory (as
    after any accepted [setTimer], [setLimit] or [setPrice], or a boot
    without a settings file), it stays equal through every later command
    and pass: no event changes a limit, the timer minutes or the price
    without rewriting the file. *)
Theorem settings_file_stays_in_sync evs st :
  mounted (fs st) = true -> in_sync st -> in_sync (run evs st).
Proof.
  revert st. induction evs as [|e evs IH]; intros st Hm Hs; [exact Hs|].
  apply IH; [now rewrite mounted_step|].
  destruct e as [now type payload|env].
  - now apply in_sync_handleWS.
  - exact (in_sync_same_config _ _ (same_config_loop env st) Hs).
Qed.

Lemma settings_file_stays_in_sync_witness :
  in_sync (run limit_before_timer booted).
Proof.
  apply settings_file_stays_in_sync; vm_compute; reflexivity.
Defined.

(** X12: when the partition failed to mount, no command and no pass
    touches the file system: the device runs on its memory alone. *)
Theorem unmounted_partition_is_never_written evs st :
  mounted (fs st) = false -> fs (run evs st) = fs st.
Proof.
  revert st. induction evs as [|e evs IH]; intros st Hm; [reflexivity|].
  cbn [run fold_left]. fold (run evs (step st e)).
  assert (fs (step st e) = fs st) as Hstep.
  { destruct e as [now type payload|env].
    - now apply fs_handleWS_unmounted.
    - cbn [step]. unfold loop. case_match; [reflexivity|].
      now apply fs_tick_unmounted. }
  rewrite IH by (now rewrite Hstep). exact Hstep.
Qed.

Lemma unmounted_partition_is_never_written_witness :
  let st := setup false (fun _ => true) (power_on no_files) in
  fs (run limit_before_timer st) = fs st.
Proof.
  intros st.
  apply unmounted_partition_is_never_written. vm_compute. reflexivity.
Defined.

(** ** Relay flags and pins *)

Section RelayFlags.

Implicit Types (st : State) (doc : JValue) (now id : Z) (i j k : nat)
  (evs : list Effect).

(** The relay flag a pass leaves: off when the limit or the timer trips,
    as before otherwise. *)
Lemma relay_channel_view env b pr i l :
  relay (channel_view env b pr i l)
  = if tripped (tnow env) l then false else relay l.
Proof.
  unfold tripped, channel_view, timer_view.
  rewrite timer_due_limit_meter.
  destruct (timer_due (tnow env) l); [now rewrite orb_true_r|].
  rewrite orb_false_r. unfold limit_view.
  rewrite relay_meter_view, limit_trips_meter_view.
  destruct (relay l) eqn:Hr; [|now rewrite relay_meter_view].
  cbn [andb]. destruct (limit_trips (tick_seconds l)); [reflexivity|].
  unfold tick_seconds. cbn [with_onSecondsToday relay].
  now rewrite relay_meter_view.
Qed.

Lemma relay_alter (f : Load -> Load) (ls : list Load) k i :
  relay (alter f k ls !!! i)
  = if decide (k = i /\ (k < length ls)%nat)
    then relay (f (ls !!! k)) else relay (ls !!! i).
Proof. rewrite list_lookup_total_alter. now case_match. Qed.

(** The relay flags after a relay command. *)
Lemma relay_cmd_relay now doc st i :
  wf st -> (i < 4)%nat ->
  relay (L (cmd_relay now doc st) !!! i)
  = if valid_id (Json.or_int (Json.get doc "id") 1)
       && bool_decide (chan (Json.or_int (Json.get doc "id") 1) = i)
    then Json.or_bool (Json.get doc "state") false
    else relay (L st !!! i).
Proof.
  unfold wf. intros Hwf Hi. unfold cmd_relay.
  destruct (valid_id _) eqn:Hv; [|reflexivity]. cbn [andb].
  rewrite L_pushNotification.
  set (k := chan (Json.or_int (Json.get doc "id") 1)).
  set (b := Json.or_bool (Json.get doc "state") false).
  assert (forall g s, relay (L (upd k (with_timerEndEpoch g) s) !!! i)
                      = relay (L s !!! i)) as Hkeep.
  { intros g s. rewrite L_upd. now apply lookup_alter_keeps. }
  assert (relay (L (upd k (with_relay b)
                      (digitalWrite (RELAY_PINS !!! k)
                         (if b then RELAY_ON else RELAY_OFF) st)) !!! i)
          = if bool_decide (k = i) then b else relay (L st !!! i)) as Hset.
  { rewrite L_upd. cbn [digitalWrite emit L]. rewrite relay_alter.
    destruct (bool_decide_reflect (k = i)) as [->|Hne].
    - now rewrite decide_True by (split; [reflexivity|lia]).
    - now rewrite decide_False by tauto. }
  match goal with
  | |- context [if b && ?c then _ else _] => destruct (b && c)
  end; now rewrite Hkeep, Hset.
Qed.

(** Other commands leave every relay flag. *)
Lemma relay_other_commands now type payload st i :
  (forall doc, payload = Some doc ->
     Json.as_cstr (Json.get doc "cmd") <> Some "relay") ->
  relay (L (handleWS now type payload st) !!! i) = relay (L st !!! i).
Proof.
  intros Hnot. unfold handleWS.
  destruct type; try reflexivity.
  destruct payload as [doc|]; [|reflexivity].
  specialize (Hnot doc eq_refl).
  destruct (Json.as_cstr (Json.get doc "cmd")) as [cmd|]; [|reflexivity].
  destruct (String.eqb_spec cmd "relay") as [->|_]; [now contradiction Hnot|].
  unfold cmd_setTimer, cmd_setLimit, cmd_setPrice, cmd_clearNotifs.
  repeat case_match; autorewrite with frame; try reflexivity;
    rewrite ?L_upd; repeat (rewrite lookup_alter_keeps by reflexivity);
    reflexivity.
Qed.

Lemma handleWS_keeps_off now type payload st i :
  wf st -> (i < 4)%nat ->
  switches_on i (EvCommand now type payload) = false ->
  relay (L st !!! i) = false ->
  relay (L (handleWS now type payload st) !!! i) = false.
Proof.
  intros Hwf Hi Hsw Hoff.
  destruct type;
    try (rewrite relay_other_commands; [exact Hoff | now intros doc ->]).
  all: try reflexivity || exact Hoff.
  destruct payload as [doc|]; [|exact Hoff].
  cbn [switches_on] in Hsw.
  destruct (Json.as_cstr (Json.get doc "cmd")) as [cmd|] eqn:Hc;
    [|rewrite relay_other_commands; [exact Hoff|]; intros d [= <-]; congruence].
  destruct (String.eqb_spec cmd "relay") as [->|Hne];
    [|rewrite relay_other_commands; [exact Hoff|]; intros d [= <-]; congruence].
  cbn [andb] in Hsw. unfold handleWS. rewrite Hc. cbn [String.eqb Ascii.eqb Bool.eqb].
  rewrite relay_cmd_relay by assumption.
  destruct (valid_id _) eqn:Hv; [|exact Hoff]. cbn [andb].
  destruct (bool_decide_reflect
              (chan (Json.or_int (Json.get doc "id") 1) = i)) as [Heq|_];
    [|exact Hoff].
  apply valid_id_range in Hv. unfold chan in Heq.
  assert ((Json.or_int (Json.get doc "id") 1 =? Z.of_nat i + 1) = true) as Hid
    by (apply Z.eqb_eq; lia).
  now rewrite Hid in Hsw.
Qed.

Lemma loop_keeps_off env st i :
  wf st -> (i < 4)%nat ->
  relay (L st !!! i) = false -> relay (L (loop env st) !!! i) = false.
Proof.
  intros Hwf Hi Hoff. unfold loop. case_match; [exact Hoff|].
  rewrite lookup_tick by assumption. now apply relay_channel_view_off.
Qed.

End RelayFlags.

(** X13: a relay that is off stays off through any sequence of commands
    and passes that contains no relay command switching that channel on: no
    pass, no timer or limit command and no command for another channel ever
    switches a relay on. *)
Theorem relay_stays_off_without_command evs st i :
  wf st -> (i < 4)%nat ->
  relay (L st !!! i) = false ->
  Forall (fun e => switches_on i e = false) evs ->
  relay (L (run evs st) !!! i) = false.
Proof.
  intros Hwf Hi Hoff Hevs. revert st Hwf Hoff.
  induction Hevs as [|e evs He _ IH]; intros st Hwf Hoff; [exact Hoff|].
  cbn [run fold_left]. apply IH; [now apply wf_step|].
  destruct e as [now type payload|env].
  - now apply handleWS_keeps_off.
  - now apply loop_keeps_off.
Qed.

Lemma relay_stays_off_without_command_witness :
  relay (L (run limit_before_timer booted) !!! 1%nat) = false.
Proof.
  apply relay_stays_off_without_command;
    [reflexivity | lia | reflexivity |].
  unfold limit_before_timer, seconds, cmd_at. cbn [seq map app].
  repeat constructor.
Defined.

Section Pins.

Implicit Types (st : State) (doc : JValue) (now id pin : Z) (i j k : nat)
  (evs : list Effect).

Lemma pin_level_from pin evs : forall acc,
  fold_left
    (fun acc e =>
       match e with
       | DigitalWrite p level => if p =? pin then Some level else acc
       | _ => acc
       end) evs acc
  = match pin_level pin evs with
    | Some b => Some b
    | None => acc
    end.
Proof.
  unfold pin_level. induction evs as [|e evs IH]; intros acc; [reflexivity|].
  cbn [fold_left]. rewrite IH. rewrite (IH (match e with
    | DigitalWrite p level => if p =? pin then Some level else None
    | _ => None end)).
  destruct (fold_left _ evs None); [reflexivity|].
  destruct e as [p lv| |]; try reflexivity. now destruct (p =? pin).
Qed.

Lemma pin_level_app pin evs evs' :
  pin_level pin (evs ++ evs')
  = match pin_level pin evs' with
    | Some b => Some b
    | None => pin_level pin evs
    end.
Proof.
  unfold pin_level at 1. rewrite fold_left_app. apply pin_level_from.
Qed.

Lemma relay_pins_eqb i j :
  (i < 4)%nat -> (j < 4)%nat ->
  (RELAY_PINS !!! j =? RELAY_PINS !!! i) = bool_decide (j = i).
Proof.
  intros Hi Hj.
  destruct i as [|[|[|[|]]]]; try lia;
    destruct j as [|[|[|[|]]]]; try lia; reflexivity.
Qed.

Lemma pin_level_channel_out env b pr j l pin :
  pin_level pin (channel_out env b pr j l)
  = if (RELAY_PINS !!! j =? pin) && tripped (tnow env) l
    then Some false else None.
Proof.
  unfold channel_out, limit_out, timer_out, tripped.
  rewrite pin_level_app, timer_due_limit_meter.
  rewrite relay_meter_view, limit_trips_meter_view.
  destruct (timer_due (tnow env) l), (relay l && limit_trips (tick_seconds l));
    cbn; destruct (RELAY_PINS !!! j =? pin); reflexivity.
Qed.

Lemma emitted_tick env st :
  wf st ->
  let out k :=
    channel_out env (inaPresent st !!! k) (unitPrice st) k (L st !!! k) in
  emitted (tick env st)
  = emitted st ++ out 0%nat ++ out 1%nat ++ out 2%nat ++ out 3%nat
    ++ [BroadcastTXT (MsgState (unitPrice st) (L (tick env st)))].
Proof.
  intros Hwf out.
  pose proof (wf_tick env st Hwf) as Hwf'. unfold wf in Hwf, Hwf'.
  rewrite tick_unfold in *. rewrite L_broadcastState in *.
  rewrite emitted_broadcastState, firstn_all2 by lia.
  rewrite !emitted_channel_step
    by (rewrite ?L_channel_step, ?length_alter, L_set_lastSec; lia).
  rewrite !unitPrice_channel_step, !inaPresent_channel_step.
  rewrite unitPrice_set_lastSec, inaPresent_set_lastSec, emitted_set_lastSec.
  assert (L (channel_step env 2 (channel_step env 1 (channel_step env 0
            (set_lastSec (millis env) st)))) !!! 3%nat = L st !!! 3%nat) as ->.
  { rewrite !L_channel_step, L_set_lastSec.
    now repeat rewrite list_lookup_total_alter_ne by lia. }
  assert (L (channel_step env 1 (channel_step env 0
            (set_lastSec (millis env) st))) !!! 2%nat = L st !!! 2%nat) as ->.
  { rewrite !L_channel_step, L_set_lastSec.
    now repeat rewrite list_lookup_total_alter_ne by lia. }
  assert (L (channel_step env 0 (set_lastSec (millis env) st)) !!! 1%nat
          = L st !!! 1%nat) as ->.
  { rewrite !L_channel_step, L_set_lastSec.
    now repeat rewrite list_lookup_total_alter_ne by lia. }
  rewrite L_set_lastSec. subst out. cbn beta.
  now rewrite <- !app_assoc.
Qed.

Lemma pins_follow_tick env st : wf st -> pins_follow st -> pins_follow (tick env st).
Proof.
  intros Hwf Hpins i Hi. specialize (Hpins i Hi).
  rewrite emitted_tick by exact Hwf. cbn zeta.
  rewrite lookup_tick, relay_channel_view by assumption.
  rewrite !pin_level_app, !pin_level_channel_out.
  rewrite !relay_pins_eqb by lia.
  change (pin_level (RELAY_PINS !!! i) [BroadcastTXT _]) with (@None bool).
  rewrite Hpins.
  destruct i as [|[|[|[|]]]]; try lia;
    repeat first [ rewrite bool_decide_eq_true_2 by lia
                 | rewrite bool_decide_eq_false_2 by lia ];
    cbn [andb];
    match goal with
    | |- context [tripped ?t ?l] => destruct (tripped t l)
    end; reflexivity.
Qed.

Lemma emitted_cmd_relay now doc st :
  valid_id (Json.or_int (Json.get doc "id") 1) = true ->
  emitted (cmd_relay now doc st)
  = emitted st
    ++ [DigitalWrite (RELAY_PINS !!! chan (Json.or_int (Json.get doc "id") 1))
          (Json.or_bool (Json.get doc "state") false);
        BroadcastTXT
          (MsgNotification
             ("Relay " +:+ pretty (Json.or_int (Json.get doc "id") 1)
              +:+ (if Json.or_bool (Json.get doc "state") false
                   then " ON" else " OFF")))].
Proof.
  intros Hv. unfold cmd_relay. rewrite Hv, emitted_pushNotification.
  assert (forall x : bool, (if x then RELAY_ON else RELAY_OFF) = x) as Hlv
    by (now intros []).
  rewrite Hlv.
  match goal with
  | |- context [if ?b && ?c then _ else _] => destruct (b && c)
  end; cbn [upd set_L digitalWrite emit emitted]; now rewrite <- app_assoc.
Qed.

Lemma pin_level_other_commands now type payload st pin :
  (forall doc, payload = Some doc ->
     Json.as_cstr (Json.get doc "cmd") <> Some "relay") ->
  pin_level pin (emitted (handleWS now type payload st))
  = pin_level pin (emitted st).
Proof.
  intros Hnot. unfold handleWS.
  destruct type; try reflexivity.
  destruct payload as [doc|]; [|reflexivity].
  specialize (Hnot doc eq_refl).
  destruct (Json.as_cstr (Json.get doc "cmd")) as [cmd|]; [|reflexivity].
  destruct (String.eqb_spec cmd "relay") as [->|_]; [now contradiction Hnot|].
  unfold cmd_setTimer, cmd_setLimit, cmd_setPrice, cmd_clearNotifs.
  repeat case_match;
    rewrite ?emitted_pushNotification, ?emitted_saveSettingsToFS,
      ?pin_level_app;
    try reflexivity;
    repeat match goal with
           | |- context [if mounted ?f then _ else _] => destruct (mounted f)
           end;
    reflexivity.
Qed.

Lemma pins_follow_handleWS now type payload st :
  wf st -> pins_follow st -> pins_follow (handleWS now type payload st).
Proof.
  intros Hwf Hpins i Hi. specialize (Hpins i Hi).
  assert (forall doc, payload = Some doc ->
            Json.as_cstr (Json.get doc "cmd") <> Some "relay" ->
            pin_level (RELAY_PINS !!! i) (emitted (handleWS now type payload st))
            = Some (relay (L (handleWS now type payload st) !!! i))) as Hother.
  { intros doc -> Hne.
    rewrite pin_level_other_commands, relay_other_commands;
      [exact Hpins | |]; intros d [= <-]; exact Hne. }
  destruct type;
    try (rewrite pin_level_other_commands, relay_other_commands;
         [exact Hpins | now intros doc -> | now intros doc ->]).
  all: try exact Hpins.
  destruct payload as [doc|]; [|exact Hpins].
  destruct (Json.as_cstr (Json.get doc "cmd")) as [cmd|] eqn:Hc;
    [|apply (Hother doc eq_refl); congruence].
  destruct (String.eqb_spec cmd "relay") as [->|Hne];
    [|apply (Hother doc eq_refl); congruence].
  unfold handleWS. rewrite Hc. cbn [String.eqb Ascii.eqb Bool.eqb].
  rewrite relay_cmd_relay by assumption.
  destruct (valid_id (Json.or_int (Json.get doc "id") 1)) eqn:Hv.
  - rewrite emitted_cmd_relay by exact Hv. cbn [andb].
    rewrite pin_level_app. cbn [pin_level fold_left].
    apply valid_id_range in Hv.
    rewrite relay_pins_eqb by (try apply chan_lt; assumption).
    destruct (bool_decide_reflect
                (chan (Json.or_int (Json.get doc "id") 1) = i));
      [reflexivity | exact Hpins].
  - unfold cmd_relay. rewrite Hv. exact Hpins.
Qed.

Lemma emitted_load_entries arr : forall k st,
  emitted (load_entries k arr st) = emitted st.
Proof.
  induction arr as [|e arr IH]; intros k st; [reflexivity|].
  cbn [load_entries]. case_match; [|reflexivity]. now rewrite IH.
Qed.

Lemma pin_level_loadSettingsFromFS pin st :
  pin_level pin (emitted (loadSettingsFromFS st)) = pin_level pin (emitted st).
Proof.
  unfold loadSettingsFromFS.
  repeat case_match;
    rewrite ?emitted_load_entries, ?emitted_saveSettingsToFS, ?pin_level_app;
    try reflexivity;
    repeat match goal with
           | |- context [if mounted ?f then _ else _] => destruct (mounted f)
           end;
    reflexivity.
Qed.

Lemma pins_follow_setup mount_ok ina_begin files :
  pins_follow (setup mount_ok ina_begin (power_on files)).
Proof.
  intros i Hi.
  assert (relay (L (setup mount_ok ina_begin (power_on files)) !!! i) = false)
    as ->.
  { rewrite lookup_setup by exact Hi.
    destruct (persisted_entry mount_ok files i) as [e|]; [|reflexivity].
    now destruct (load_entry_fields e Load_default) as (-> & _). }
  unfold setup. rewrite pin_level_loadSettingsFromFS.
  destruct i as [|[|[|[|]]]]; try lia; reflexivity.
Qed.

End Pins.

(** X14: from boot on, after every command and every pass, the level last
    written to each relay pin is the channel's relay flag: the flag never
    changes without the pin being written, and the pin is never written with
    another level. *)
Theorem pins_follow_relay_flags files mount_ok ina_begin evs :
  pins_follow (run evs (setup mount_ok ina_begin (power_on files))).
Proof.
  pose proof (wf_setup mount_ok ina_begin files) as Hwf.
  pose proof (pins_follow_setup mount_ok ina_begin files) as Hpins.
  revert Hwf Hpins. generalize (setup mount_ok ina_begin (power_on files)).
  induction evs as [|e evs IH]; intros st Hwf Hpins; [exact Hpins|].
  cbn [run fold_left]. apply IH; [now apply wf_step|].
  destruct e as [now type payload|env].
  - now apply pins_follow_handleWS.
  - cbn [step]. unfold loop. case_match; [exact Hpins|].
    now apply pins_follow_tick.
Qed.

(** ** A timer armed while the relay is on *)

Section TimerRun.

Context (b : bool) (pr : spec_float) (i : nat).
Implicit Types (l : Load) (envs : list LoopEnv).

Local Abbreviation views envs l :=
  (fold_left (fun l' env => channel_view env b pr i l') envs l).

Lemma timerEndEpoch_channel_view env l :
  timerEndEpoch (channel_view env b pr i l)
  = if timer_due (tnow env) l then 0 else timerEndEpoch l.
Proof.
  unfold channel_view, timer_view. rewrite timer_due_limit_meter.
  destruct (timer_due (tnow env) l); [reflexivity|].
  now rewrite timerEndEpoch_limit_view, timerEndEpoch_meter_view.
Qed.

(** Before the deadline and below the limit the relay stays on. *)
Lemma stays_on_until_deadline envs : forall l,
  relay l = true ->
  Forall (fun env => tnow env < timerEndEpoch l) envs ->
  0 <= onSecondsToday l ->
  onSecondsToday l + Z.of_nat (length envs) <= C.ULONG_MAX ->
  usageLimitSeconds l <= 0
  \/ onSecondsToday l + Z.of_nat (length envs) < usageLimitSeconds l ->
  relay (views envs l) = true
  /\ timerEndEpoch (views envs l) = timerEndEpoch l
  /\ onSecondsToday (views envs l) = onSecondsToday l + Z.of_nat (length envs).
Proof.
  induction envs as [|env envs IH]; intros l Hr Hbefore H0 Hmax Hlim.
  - cbn. repeat split; try assumption. lia.
  - cbn [length] in Hmax, Hlim. inversion Hbefore as [|? ? Hnow Hrest]; subst.
    assert (C.to_ulong (onSecondsToday l + 1) = onSecondsToday l + 1) as Hw
      by (unfold C.to_ulong, C.ULONG_MAX in *; apply Z.mod_small; lia).
    assert (timer_due (tnow env) l = false) as Hdue.
    { unfold timer_due. apply andb_false_iff. right. apply Z.leb_gt. lia. }
    assert (limit_trips (tick_seconds l) = false) as Htrip.
    { unfold limit_trips, tick_seconds.
      cbn [with_onSecondsToday usageLimitSeconds onSecondsToday]. rewrite Hw.
      apply andb_false_iff. destruct Hlim as [Hz|Hlt];
        [left; apply Z.ltb_ge | right; apply Z.leb_gt]; lia. }
    assert (relay (channel_view env b pr i l) = true) as Hr'.
    { rewrite relay_channel_view. unfold tripped.
      now rewrite Hr, Htrip, Hdue. }
    assert (timerEndEpoch (channel_view env b pr i l) = timerEndEpoch l) as Ht'
      by (now rewrite timerEndEpoch_channel_view, Hdue).
    assert (onSecondsToday (channel_view env b pr i l) = onSecondsToday l + 1)
      as Hs' by (now rewrite onSecondsToday_channel_view, Hr, Hw).
    pose proof (usageLimitSeconds_channel_view env b pr i l) as Hu.
    cbn [fold_left].
    destruct (IH (channel_view env b pr i l)) as (H1 & H2 & H3);
      rewrite ?Ht', ?Hs', ?Hu; try assumption; try lia.
    rewrite H2, H3, Ht', Hs'. cbn [length].
    split; [assumption|]. split; [reflexivity|lia].
Qed.

End TimerRun.

(** X15: [setTimer] with positive minutes on a channel that is on arms the
    deadline [now + minutes*60]; as long as the clock of the passes is below
    the deadline (and the usage limit is not reached) the relay stays on, and
    the first pass whose clock has reached the deadline switches it off,
    clears the deadline and announces "auto OFF by timer". *)
Theorem timer_trips_at_deadline st now doc id m envs env :
  wf st ->
  Json.get doc "cmd" = JStr "setTimer" ->
  Json.or_int (Json.get doc "id") 1 = id -> 1 <= id <= 4 ->
  Json.or_int (Json.get doc "minutes") 0 = m -> 0 < m ->
  0 <= now -> m * 60 <= C.INT_MAX -> now + m * 60 <= C.ULONG_MAX ->
  let l := L st !!! chan id in
  relay l = true ->
  0 <= onSecondsToday l ->
  onSecondsToday l + Z.of_nat (length envs) <= C.ULONG_MAX ->
  usageLimitSeconds l <= 0
  \/ onSecondsToday l + Z.of_nat (length envs) < usageLimitSeconds l ->
  Forall (fun e => tnow e < now + m * 60) envs ->
  now + m * 60 <= tnow env ->
  let st1 := handleWS now WStype_TEXT (Some doc) st in
  let s := ticks envs st1 in
  let s' := tick env s in
  (forall k, (k <= length envs)%nat ->
     relay (L (ticks (take k envs) st1) !!! chan id) = true)
  /\ relay (L s' !!! chan id) = false
  /\ timerEndEpoch (L s' !!! chan id) = 0
  /\ notified (timer_text (chan id)) s s'.
Proof.
  intros Hwf Hc Hid Hr Hm Hpos Hnow Hint Hul l Hon H0 Hmax Hlim Hbefore Hafter.
  destruct (setTimer_fields st now doc id m) as (Hrel & Hlimit & Hsec & Hdl);
    try assumption; try lia.
  fold l in Hrel, Hlimit, Hsec, Hdl.
  rewrite Hon, (proj2 (Z.ltb_lt 0 m) Hpos) in Hdl. cbn [andb] in Hdl.
  set (st1 := handleWS now WStype_TEXT (Some doc) st) in *.
  assert (wf st1) as Hwf1 by (subst st1; now apply wf_handleWS).
  pose proof (chan_lt id Hr) as Hi.
  clearbody st1. cbn zeta.
  assert (forall k, (k <= length envs)%nat ->
            let lk := L (ticks (take k envs) st1) !!! chan id in
            relay lk = true /\ timerEndEpoch lk = now + m * 60) as Hprefix.
  { intros k Hk. cbn zeta. rewrite lookup_ticks by assumption.
    destruct (stays_on_until_deadline (inaPresent st1 !!! chan id)
                (unitPrice st1) (chan id) (take k envs) (L st1 !!! chan id))
      as (H1 & H2 & _);
      rewrite ?Hdl, ?Hsec, ?Hlimit, ?Hrel, ?length_take; try assumption; try lia.
    - now apply Forall_take.
    - rewrite Hdl in H2. now split. }
  split; [intros k Hk; exact (proj1 (Hprefix k Hk))|].
  destruct (Hprefix (length envs) (le_n _)) as [Hon' Hdl'].
  rewrite firstn_all in Hon', Hdl'.
  set (s := ticks envs st1) in *.
  assert (wf s) as Hwfs by (subst s; now apply wf_ticks).
  clearbody s.
  assert (timer_due (tnow env) (L s !!! chan id) = true) as Hdue.
  { unfold timer_due. rewrite Hdl'. apply andb_true_iff.
    split; [apply Z.ltb_lt | apply Z.leb_le]; lia. }
  destruct (timer_due_channel_view env (inaPresent s !!! chan id) (unitPrice s)
              (chan id) _ Hdue) as [Hoff Hzero].
  destruct (channel_out_timer_due env (inaPresent s !!! chan id) (unitPrice s)
              (chan id) _ Hdue) as [Hmsg _].
  rewrite lookup_tick by assumption.
  split; [exact Hoff|]. split; [exact Hzero|].
  now apply (produced_tick env s (chan id)).
Qed.

Lemma timer_trips_at_deadline_witness :
  let doc := JObj [("cmd", JStr "setTimer"); ("id", JInt 1); ("minutes", JInt 1)] in
  let st := upd 0 (with_relay true) booted in
  let st1 := handleWS 1700000000 WStype_TEXT (Some doc) st in
  relay (L (ticks (seconds 1 3) st1) !!! 0%nat) = true
  /\ relay (L (tick (second 60) (ticks (seconds 1 3) st1)) !!! 0%nat) = false.
Proof.
  intros doc st st1.
  destruct (timer_trips_at_deadline st 1700000000 doc 1 1 (seconds 1 3) (second 60))
    as (Hon & Hoff & _);
    try reflexivity;
    try (unfold C.INT_MAX, C.ULONG_MAX; cbn; lia).
  - vm_compute. discriminate.
  - right. vm_compute. reflexivity.
  - unfold seconds. cbn [seq map]. repeat constructor.
  - split; [exact (Hon 3%nat (le_n _)) | exact Hoff].
Defined.

(** ** Settings across a reboot *)

Lemma persisted_entry_in_sync st i :
  wf st -> in_sync st -> (i < 4)%nat ->
  persisted_entry true (fs st) i
  = Some {| limitSec := Some (usageLimitSeconds (L st !!! i));
            timerMin := Some (timerMinutes (L st !!! i)) |}.
Proof.
  unfold wf, in_sync, persisted_entry. intros Hwf Hs Hi. rewrite Hs.
  cbn [settings_of doc_loads mbind option_bind].
  rewrite firstn_all2 by lia.
  change (map ?f ?l) with (f <$> l). rewrite list_lookup_fmap.
  destruct (lookup_lt_is_Some_2 (L st) i) as [l Hl]; [lia|].
  now rewrite Hl, (list_lookup_total_correct _ _ _ Hl).
Qed.

(** X16: a reboot from a settings file that equals the configuration in
    memory restores each channel's usage limit and timer minutes; relay,
    deadline, counted seconds, readings, energy and cost start again from
    their defaults. *)
Theorem settings_survive_reboot st ina_begin i :
  wf st -> in_sync st -> (i < 4)%nat ->
  L (setup true ina_begin (power_on (fs st))) !!! i
  = with_timerMinutes (timerMinutes (L st !!! i))
      (with_usageLimitSeconds (usageLimitSeconds (L st !!! i)) Load_default).
Proof.
  intros Hwf Hs Hi. rewrite lookup_setup by exact Hi.
  now rewrite (persisted_entry_in_sync st i Hwf Hs Hi).
Qed.

Lemma settings_survive_reboot_witness :
  let st := run limit_before_timer booted in
  let st' := setup true (fun _ => true) (power_on (fs st)) in
  usageLimitSeconds (L st' !!! 0%nat) = 5
  /\ timerMinutes (L st' !!! 0%nat) = 10
  /\ timerEndEpoch (L st' !!! 0%nat) = 0.
Proof.
  intros st st'.
  assert (L st' !!! 0%nat
          = with_timerMinutes (timerMinutes (L st !!! 0%nat))
              (with_usageLimitSeconds (usageLimitSeconds (L st !!! 0%nat))
                 Load_default)) as ->.
  { apply settings_survive_reboot; [reflexivity | vm_compute; reflexivity | lia]. }
  split; [vm_compute; reflexivity|]. split; vm_compute; reflexivity.
Defined.

(** X17: on a first boot (partition mounted, no settings file) [setup]
    writes the settings file with the defaults: price 8.0 and, for each of
    the four channels, limit 43200 and timer 0; file and memory agree from
    then on. *)
Theorem first_boot_writes_defaults files ina_begin :
  settings_file files = None ->
  let st := setup true ina_begin (power_on files) in
  settings_file (fs st)
  = Some (Parsed
            {| doc_unitPrice := Some (IEEE.f64_of_Z 8);
               doc_loads :=
                 Some (replicate 4 {| limitSec := Some 43200; timerMin := Some 0 |}) |})
  /\ in_sync st.
Proof.
  intros Hnone. cbn zeta. unfold setup.
  set (st3 := fold_left (probe ina_begin) (seq 0 4) _).
  assert (L st3 = replicate 4 Load_default) as HL by reflexivity.
  assert (unitPrice st3 = IEEE.f64_of_Z 8) as Hp by reflexivity.
  assert (fs st3 = mkFS true (settings_file files) (notifs_file files))
    as Hfs by reflexivity.
  clearbody st3.
  unfold loadSettingsFromFS, fileExists_settings. rewrite Hfs, Hnone.
  cbn [mounted settings_file present_file andb negb].
  assert (mounted (fs st3) = true) as Hm by now rewrite Hfs.
  split; [|now apply in_sync_saveSettingsToFS].
  unfold saveSettingsToFS. rewrite Hm.
  cbn [emit set_fs fs write_settings settings_file].
  unfold settings_of. now rewrite HL, Hp.
Qed.

Lemma first_boot_writes_defaults_witness : in_sync booted.
Proof.
  exact (proj2 (first_boot_writes_defaults no_files (fun _ => true) eq_refl)).
Defined.

(** X18: a settings file that does not parse is neither applied nor
    repaired at boot: every channel and the price keep their defaults, and
    the file stays as it was. *)
Theorem corrupt_settings_are_left files mount_ok ina_begin :
  settings_file files = Some Unparsable ->
  let st := setup mount_ok ina_begin (power_on files) in
  settings_file (fs st) = Some Unparsable
  /\ unitPrice st = IEEE.f64_of_Z 8
  /\ forall i, (i < 4)%nat -> L st !!! i = Load_default.
Proof.
  intros Hbad. cbn zeta. split; [|split].
  - unfold setup.
    set (st3 := fold_left (probe ina_begin) (seq 0 4) _).
    assert (fs st3 = mkFS mount_ok (settings_file files) (notifs_file files))
      as Hfs by reflexivity.
    clearbody st3. destruct st3 as [ls p t ina f out]. cbn in Hfs. subst f.
    unfold loadSettingsFromFS, fileExists_settings, saveSettingsToFS.
    cbn [fs mounted settings_file]. rewrite Hbad.
    now destruct mount_ok.
  - unfold setup.
    set (st3 := fold_left (probe ina_begin) (seq 0 4) _).
    assert (unitPrice st3 = IEEE.f64_of_Z 8) as Hp by reflexivity.
    assert (fs st3 = mkFS mount_ok (settings_file files) (notifs_file files))
      as Hfs by reflexivity.
    clearbody st3. destruct st3 as [ls p t ina f out]. cbn in Hfs, Hp. subst f p.
    unfold loadSettingsFromFS, fileExists_settings, saveSettingsToFS.
    cbn [fs mounted settings_file]. rewrite Hbad.
    now destruct mount_ok.
  - intros i Hi. rewrite lookup_setup by exact Hi.
    unfold persisted_entry. rewrite Hbad. now destruct mount_ok.
Qed.

Lemma corrupt_settings_are_left_witness :
  let files := mkFS false (Some Unparsable) None in
  settings_file (fs (setup true (fun _ => true) (power_on files)))
  = Some Unparsable.
Proof.
  intros files.
  exact (proj1 (corrupt_settings_are_left files true (fun _ => true) eq_refl)).
Defined.

Lemma load_entries_take arr : forall k st,
  load_entries k arr st = load_entries k (take (4 - k) arr) st.
Proof.
  induction arr as [|e arr IH]; intros k st.
  - now rewrite take_nil.
  - cbn [load_entries]. destruct (k <? 4)%nat eqn:Hk.
    + apply Nat.ltb_lt in Hk.
      replace (4 - k)%nat with (S (4 - S k)) by lia.
      cbn [take load_entries]. rewrite (proj2 (Nat.ltb_lt k 4) Hk).
      apply IH.
    + apply Nat.ltb_ge in Hk. replace (4 - k)%nat with 0%nat by lia.
      reflexivity.
Qed.

(** X19: [loadSettingsFromFS] stays inside the four-channel array whatever
    the length of the [loads] array in the file: entries past the fourth are
    ignored, and a channel for which the array has no entry keeps its limit
    and timer minutes. *)
Theorem loads_array_bounds arr st :
  wf st ->
  load_entries 0 arr st = load_entries 0 (take 4 arr) st
  /\ wf (load_entries 0 arr st)
  /\ forall i, (length arr <= i)%nat ->
       L (load_entries 0 arr st) !!! i = L st !!! i.
Proof.
  intros Hwf. split; [apply (load_entries_take arr 0 st)|].
  split; [now apply wf_load_entries|].
  intros i Hi. rewrite lookup_load_entries by exact Hwf.
  case_match; [|reflexivity].
  rewrite Nat.sub_0_r. now rewrite (lookup_ge_None_2 arr i Hi).
Qed.

Lemma loads_array_bounds_witness :
  let e := {| limitSec := Some 60; timerMin := None |} in
  load_entries 0 [e; e; e; e; e; e] booted = load_entries 0 [e; e; e; e] booted.
Proof.
  intros e.
  exact (proj1 (loads_array_bounds [e; e; e; e; e; e] booted eq_refl)).
Defined.

(** ** Static files *)

Section Http.

Implicit Types (s p q suffix : string).

Lemma string_length_app p q :
  String.length (p +:+ q) = (String.length p + String.length q)%nat.
Proof. induction p as [|c p IH]; [reflexivity | exact (f_equal S IH)]. Qed.

Lemma substring_skip p q n m :
  String.substring (String.length p + n) m (p +:+ q) = String.substring n m q.
Proof. induction p as [|c p IH]; [reflexivity | exact IH]. Qed.

(** A suffix of the tail is a suffix of the whole. *)
Lemma endsWith_app p q suffix :
  endsWith q suffix = true -> endsWith (p +:+ q) suffix = true.
Proof.
  unfold endsWith. rewrite !andb_true_iff, string_length_app.
  intros [Hlen Heq]. apply Nat.leb_le in Hlen.
  split; [apply Nat.leb_le; lia|].
  replace (String.length p + String.length q - String.length suffix)%nat
    with (String.length p + (String.length q - String.length suffix))%nat by lia.
  now rewrite substring_skip.
Qed.

End Http.

(** X20: a request for a path ending in "/" is answered from the
    [index.html] below it: that file with type text/html when it exists, 404
    otherwise; the bare path is never looked up. *)
Theorem directory_request_serves_index spiffs_exists path :
  endsWith path "/" = true ->
  handleFileRead spiffs_exists path
  = if spiffs_exists (path +:+ "index.html")
    then StreamFile (path +:+ "index.html") "text/html"
    else Send 404 "text/plain" "Not found".
Proof.
  intros Hdir. unfold handleFileRead. rewrite Hdir.
  unfold contentType.
  rewrite (endsWith_app path "index.html" ".html") by reflexivity.
  now destruct (spiffs_exists (path +:+ "index.html")).
Qed.

Lemma directory_request_serves_index_witness :
  handleFileRead (fun p => String.eqb p "/index.html") "/"
  = StreamFile "/index.html" "text/html".
Proof.
  exact (directory_request_serves_index
           (fun p => String.eqb p "/index.html") "/" eq_refl).
Defined.

(** X21: with [/index.html] on the partition, the catch-all handler never
    answers 404 for a URI that does not end in "/" (or is "/" itself): it
    streams the requested file when it exists and [/index.html] as text/html
    otherwise. *)
Theorem not_found_falls_back_to_index spiffs_exists uri :
  spiffs_exists "/index.html" = true ->
  endsWith uri "/" = false \/ uri = "/" ->
  onNotFound spiffs_exists uri
  = if String.eqb uri "/" then StreamFile "/index.html" "text/html"
    else if spiffs_exists uri then StreamFile uri (contentType uri)
    else StreamFile "/index.html" "text/html".
Proof.
  intros Hindex Huri. unfold onNotFound.
  assert (handleFileRead spiffs_exists "/index.html"
          = StreamFile "/index.html" "text/html") as Hidx.
  { unfold handleFileRead.
    change (endsWith "/index.html" "/") with false. cbn iota.
    rewrite Hindex. reflexivity. }
  destruct (String.eqb_spec uri "/") as [->|Hne].
  - now rewrite Hindex.
  - destruct Huri as [Hnodir|Heq]; [|contradiction].
    destruct (spiffs_exists uri) eqn:Hex; [|exact Hidx].
    unfold handleFileRead. now rewrite Hnodir, Hex.
Qed.

Lemma not_found_falls_back_to_index_witness :
  onNotFound (fun p => String.eqb p "/index.html") "/dashboard"
  = StreamFile "/index.html" "text/html".
Proof.
  refine (not_found_falls_back_to_index
            (fun p => String.eqb p "/index.html") "/dashboard" eq_refl _).
  left. reflexivity.
Defined.

(** ** Limit and timer in the same pass *)

Lemma channel_out_both env b pr i l :
  relay l = true -> limit_trips (tick_seconds l) = true ->
  timer_due (tnow env) l = true ->
  channel_out env b pr i l
  = [DigitalWrite (RELAY_PINS !!! i) RELAY_OFF;
     BroadcastTXT (MsgNotification (limit_text i));
     DigitalWrite (RELAY_PINS !!! i) RELAY_OFF;
     BroadcastTXT (MsgNotification (timer_text i))].
Proof.
  intros Hr Ht Hd. unfold channel_out, limit_out, timer_out.
  now rewrite relay_meter_view, Hr, limit_trips_meter_view, Ht,
    timer_due_limit_meter, Hd.
Qed.

(** X22: when the usage limit and the timer deadline are both reached in
    the same pass, both blocks run, limit first: the pass writes the pin low
    and announces "auto OFF by limit", then writes the pin low again and
    announces "auto OFF by timer", and leaves the relay off and the deadline
    cleared. *)
Theorem limit_and_timer_in_one_pass env st i :
  wf st -> (i < 4)%nat ->
  relay (L st !!! i) = true ->
  limit_trips (tick_seconds (L st !!! i)) = true ->
  timer_due (tnow env) (L st !!! i) = true ->
  (exists before after,
     produced st (tick env st)
     = before
       ++ [DigitalWrite (RELAY_PINS !!! i) RELAY_OFF;
           BroadcastTXT (MsgNotification (limit_text i));
           DigitalWrite (RELAY_PINS !!! i) RELAY_OFF;
           BroadcastTXT (MsgNotification (timer_text i))]
       ++ after)
  /\ relay (L (tick env st) !!! i) = false
  /\ timerEndEpoch (L (tick env st) !!! i) = 0.
Proof.
  intros Hwf Hi Hr Ht Hd. split.
  - pose proof (emitted_tick env st Hwf) as Hem. cbn zeta in Hem.
    apply produced_app in Hem. rewrite Hem.
    pose proof (channel_out_both env (inaPresent st !!! i) (unitPrice st) i _
                  Hr Ht Hd) as Hout.
    destruct i as [|[|[|[|]]]]; try lia; rewrite Hout.
    + exists []. eexists. reflexivity.
    + eexists. eexists. reflexivity.
    + exists (channel_out env (inaPresent st !!! 0%nat) (unitPrice st) 0
                (L st !!! 0%nat)
              ++ channel_out env (inaPresent st !!! 1%nat) (unitPrice st) 1
                   (L st !!! 1%nat)).
      eexists. rewrite <- app_assoc. reflexivity.
    + exists (channel_out env (inaPresent st !!! 0%nat) (unitPrice st) 0
                (L st !!! 0%nat)
              ++ channel_out env (inaPresent st !!! 1%nat) (unitPrice st) 1
                   (L st !!! 1%nat)
              ++ channel_out env (inaPresent st !!! 2%nat) (unitPrice st) 2
                   (L st !!! 2%nat)).
      eexists. rewrite <- !app_assoc. reflexivity.
  - rewrite lookup_tick by assumption.
    now apply timer_due_channel_view.
Qed.

Lemma limit_and_timer_in_one_pass_witness :
  let st := upd 0 (fun l => with_timerEndEpoch 1700000010
                              (with_usageLimitSeconds 1 (with_relay true l)))
              booted in
  relay (L (tick (second 10) st) !!! 0%nat) = false
  /\ timerEndEpoch (L (tick (second 10) st) !!! 0%nat) = 0.
Proof.
  intros st.
  refine (proj2 (limit_and_timer_in_one_pass (second 10) st 0
                   eq_refl _ eq_refl eq_refl eq_refl)).
  lia.
Defined.
